(** * CITY-Project: the code runner, the error explainer and the progress relay

    A shallow embedding of [src/Code_Bug.py] (process runners and error
    explainers) and of [src/app.py] (file-name sanitizer, background download,
    polling loop and fallback file resolution), followed by the properties
    proved about them.

    Python text is a sequence of Unicode code points; a code point is a
    natural number.  What the interpreter fixes in a small table
    ([str.isspace], the line boundaries of [str.splitlines]) is written out;
    the large table behind [str.isalnum] is a parameter of the development. *)

From Stdlib Require Import ZArith NArith Ascii String List Bool Lia ZifyBool.
From Stdlib Require Import DecimalString Sorted.
From stdpp Require Import base option list gmap strings.

Open Scope N_scope.
Open Scope list_scope.

(** ** Python text *)

Module Py.

Abbreviation str := (list N).

(** An ASCII literal of the source, as code points. *)
Definition lit (s : string) : str :=
  List.map N_of_ascii (list_ascii_of_string s).

(** [str.isspace] on one character (the interpreter's whitespace table). *)
Definition isspace (c : N) : bool :=
  ((9 <=? c) && (c <=? 13)) || ((28 <=? c) && (c <=? 32))
  || (c =? 133) || (c =? 160) || (c =? 5760)
  || ((8192 <=? c) && (c <=? 8202))
  || (c =? 8232) || (c =? 8233) || (c =? 8239) || (c =? 8287) || (c =? 12288).

(** The characters at which [str.splitlines] cuts. *)
Definition is_linebreak (c : N) : bool :=
  ((10 <=? c) && (c <=? 13)) || ((28 <=? c) && (c <=? 30))
  || (c =? 133) || (c =? 8232) || (c =? 8233).

(** [s.splitlines()]: cut at every line boundary, a carriage return
    followed by a line feed counting once; no empty last line. *)
Fixpoint splitlines (s : str) : list str :=
  match s with
  | [] => []
  | c :: s' =>
      if is_linebreak c then
        match s' with
        | d :: s'' => if (c =? 13) && (d =? 10) then [] :: splitlines s''
                      else [] :: splitlines s'
        | [] => [[]]
        end
      else
        match splitlines s' with
        | [] => [[c]]
        | l :: ls => (c :: l) :: ls
        end
  end.

Fixpoint drop_while (p : N -> bool) (s : str) : str :=
  match s with
  | [] => []
  | c :: s' => if p c then drop_while p s' else s
  end.

Fixpoint take_while (p : N -> bool) (s : str) : str :=
  match s with
  | [] => []
  | c :: s' => if p c then c :: take_while p s' else []
  end.

Definition lstrip (s : str) : str := drop_while isspace s.
Definition rstrip (s : str) : str := rev (drop_while isspace (rev s)).
Definition strip (s : str) : str := rstrip (lstrip s).

(** [s.startswith(x)], returning what follows the prefix. *)
Fixpoint strip_prefix (x s : str) : option str :=
  match x, s with
  | [], _ => Some s
  | a :: x', b :: s' => if a =? b then strip_prefix x' s' else None
  | _ :: _, [] => None
  end.

Definition startswith (s x : str) : bool :=
  match strip_prefix x s with Some _ => true | None => false end.

(** [x in s] for two strings. *)
Fixpoint contains (x s : str) : bool :=
  startswith s x ||
  match s with
  | [] => false
  | _ :: s' => contains x s'
  end.

(** Truth value of a string: the empty string is false. *)
Definition truthy (s : str) : bool :=
  match s with [] => false | _ :: _ => true end.

Definition str_eqb (a b : str) : bool := bool_decide (a = b).

End Py.

Import Py.

(** ** The error explainers ([src/Code_Bug.py]) *)

Module Explain.

(** The three characters that separate a quoted line from the advice that
    follows it in the messages of the source file. *)
Definition dash : str := [8218; 196; 238].

(** [[l for l in text.splitlines() if l.strip()]] *)
Definition nonblank_lines (text : str) : list str :=
  List.filter (fun l => truthy (strip l)) (splitlines text).

(** The test of the traceback search: [':' in l and not l.strip().startswith('File')] *)
Definition is_exception_line (l : str) : bool :=
  contains (lit ":") l && negb (startswith (strip l) (lit "File")).

Definition explain_runtime_error (output language : str) : str :=
  if negb (truthy output) then lit "No runtime errors detected."
  else
    let lines := nonblank_lines output in
    match last lines with
    | None => lit "Runtime produced output but no errors present."
    | Some last_line =>
        if str_eqb language (lit "Python") then
          let fallback := lit "Runtime stderr: " ++ last_line in
          if contains (lit "Traceback") output then
            match List.find is_exception_line (rev lines) with
            | Some l =>
                lit "Detected runtime exception: " ++ strip l ++ lit " " ++ dash
                ++ lit " inspect traceback above to find offending line and fix the error (e.g., NameError, TypeError, IndexError)."
            | None => fallback
            end
          else fallback
        else lit "Runtime/compile message: " ++ last_line
    end.

Definition is_compile_error_line (l : str) : bool := contains (lit "error:") l.

Definition is_java_exception_line (l : str) : bool :=
  contains (lit "Exception") l || contains (lit "Error") l.

Definition explain_java_error (stderr : str) : str :=
  if negb (truthy stderr) then lit "No compilation/runtime errors detected."
  else
    let lines := nonblank_lines stderr in
    match last lines with
    | None => lit "Java produced output on stderr but no clear message to summarize."
    | Some last_line =>
        let runtime :=
          match List.find is_java_exception_line (rev lines) with
          | Some l =>
              lit "Runtime exception detected: " ++ strip l ++ lit " " ++ dash
              ++ lit " inspect stack trace above for root cause."
          | None => lit "Java stderr: " ++ last_line
          end in
        if existsb is_compile_error_line lines then
          match List.find is_compile_error_line lines with
          | Some l =>
              lit "Compilation error detected: " ++ strip l ++ lit " " ++ dash
              ++ lit " check the indicated file and line to fix syntax or type errors."
          | None => runtime
          end
        else runtime
    end.

(** The languages of the selector and the explainer the page calls for
    each of them. *)
Inductive language := Python | Java.

Definition language_name (lang : language) : str :=
  match lang with Python => lit "Python" | Java => lit "Java" end.

Definition explain (text : str) (lang : language) : str :=
  match lang with
  | Python => explain_runtime_error text (language_name lang)
  | Java => explain_java_error text
  end.

End Explain.

(** ** The operating system as the runners see it *)

(** [str.isalnum] on one character: the interpreter's Unicode table. *)
Class CharTable := isalnum : N -> bool.

(** A table that knows the ASCII letters and digits only. *)
Definition ascii_isalnum (c : N) : bool :=
  ((48 <=? c) && (c <=? 57)) || ((65 <=? c) && (c <=? 90)) || ((97 <=? c) && (c <=? 122)).

Definition ascii_table : CharTable := ascii_isalnum.

Module Sys.

Inductive node := File (content : str) | Dir.

(** Exceptions, by what the handlers of the source tell apart:
    [subprocess.TimeoutExpired] with its [stdout] and its text, any other
    subclass of [Exception] with its text, and the exceptions outside
    [Exception] (an interrupt, an interpreter exit). *)
Inductive exn :=
| TimeoutExpired (stdout : option str) (text : str)
| Exception (text : str)
| BaseException (text : str).

Definition is_exception (e : exn) : bool :=
  match e with BaseException _ => false | _ => true end.

Inductive event :=
| Created (path : str)
| Wrote (path content : str)
| Spawned (argv : list str) (timeout : Z)
| Killed (argv : list str)
| Removed (path : str).

(** What a launched process does: how long it runs, what it returns if
    left to finish, what it had printed when a timeout strikes, the text
    of the timeout exception, and the files it leaves behind. *)
Record child := {
  duration : Z;
  returncode : Z;
  stdout : str;
  stderr : str;
  buffered : option str;
  timeout_text : str;
  leaves : list (str * str)
}.

(** What [subprocess.run] meets: a process that it runs to its end or to
    the timeout and whose output it hands back, or an exception other than
    the timeout, with its text, as when the program cannot be started or
    when what it printed cannot be decoded as text. *)
Inductive launch := Launched (c : child) | Failed (text : str).

(** The answers of the outside world during one call of a runner. *)
Record env := {
  which : str -> option str;
  executable : str;
  temp_name : str;
  write_fault : option str;
  spawn : list str -> launch;
  remove_fault : option str
}.

Record world := { files : gmap (list N) node; log : list event }.

Inductive outcome (A : Type) := Return (a : A) | Raise (e : exn).
Arguments Return {A} a.
Arguments Raise {A} e.

Definition M (A : Type) : Type := world -> outcome A * world.

Definition ret {A} (a : A) : M A := fun w => (Return a, w).
Definition raise {A} (e : exn) : M A := fun w => (Raise e, w).

Definition bind {A B} (m : M A) (k : A -> M B) : M B :=
  fun w => match m w with
           | (Return a, w') => k a w'
           | (Raise e, w') => (Raise e, w')
           end.

(** [try: body / except ...: handler]; a handler answering [None] does
    not catch the exception. *)
Definition try_except {A} (body : M A) (handler : exn -> option (M A)) : M A :=
  fun w => match body w with
           | (Return a, w') => (Return a, w')
           | (Raise e, w') =>
               match handler e with
               | Some h => h w'
               | None => (Raise e, w')
               end
           end.

(** [try: body / finally: cleanup] *)
Definition try_finally {A} (body : M A) (cleanup : M unit) : M A :=
  fun w => match body w with
           | (r, w') =>
               match cleanup w' with
               | (Return _, w'') => (r, w'')
               | (Raise e, w'') => (Raise e, w'')
               end
           end.

Definition emit (ev : event) : M unit :=
  fun w => (Return tt, {| files := files w; log := log w ++ [ev] |}).

Definition update_files (f : gmap (list N) node -> gmap (list N) node) : M unit :=
  fun w => (Return tt, {| files := f (files w); log := log w |}).

Definition get_files : M (gmap (list N) node) := fun w => (Return (files w), w).

(** [os.path.join] of two components. *)
Definition join (a b : str) : str :=
  if startswith b (lit "/") then b
  else match last a with
       | None => b
       | Some c => if c =? 47 then a ++ b else a ++ lit "/" ++ b
       end.

(** A path at or below a directory. *)
Definition in_tree (d p : str) : bool := str_eqb p d || startswith p (join d []).

(** A file a process leaves behind; a directory is not overwritten. *)
Definition leave (fs : gmap (list N) node) (pc : str * str) : gmap (list N) node :=
  match fs !! pc.1 with
  | Some Dir => fs
  | _ => <[pc.1 := File pc.2]> fs
  end.

End Sys.

Import Sys.

Definition is_Some_b {A} (x : option A) : bool :=
  match x with Some _ => true | None => false end.

Declare Scope sys_scope.
Notation "'let!' x ':=' m 'in' k" := (bind m (fun x => k))
  (at level 10, x pattern, m at level 100, k at level 200) : sys_scope.
Open Scope sys_scope.

Module Os.

(** [tempfile.mkstemp(suffix=...)], the descriptor closed at once. *)
Definition mkstemp (E : env) (suffix : str) : M str :=
  let path := temp_name E ++ suffix in
  let! _ := update_files (fun fs => <[path := File []]> fs) in
  let! _ := emit (Created path) in
  ret path.

(** [tempfile.mkdtemp()] *)
Definition mkdtemp (E : env) : M str :=
  let path := temp_name E in
  let! _ := update_files (fun fs => <[path := Dir]> fs) in
  let! _ := emit (Created path) in
  ret path.

(** [with open(path, 'w', encoding='utf-8') as f: f.write(content)] *)
Definition write_file (E : env) (path content : str) : M unit :=
  match write_fault E with
  | Some text => raise (Exception text)
  | None =>
      let! _ := update_files (fun fs => <[path := File content]> fs) in
      emit (Wrote path content)
  end.

(** [subprocess.run(argv, capture_output=True, text=True, timeout=timeout)]:
    the process is killed when it outlives the timeout; any other failure
    of the call, decoding the output included, is an [Exception]. *)
Definition subprocess_run (E : env) (argv : list str) (timeout : Z) : M (Z * str * str) :=
  let! _ := emit (Spawned argv timeout) in
  match spawn E argv with
  | Failed text => raise (Exception text)
  | Launched c =>
      let! _ := update_files (fun fs => foldl leave fs (leaves c)) in
      if (timeout <? duration c)%Z then
        let! _ := emit (Killed argv) in
        raise (TimeoutExpired (buffered c) (timeout_text c))
      else ret (returncode c, stdout c, stderr c)
  end.

(** [os.remove(path)] *)
Definition remove (E : env) (path : str) : M unit :=
  let! fs := get_files in
  match fs !! path, remove_fault E with
  | Some (File _), None =>
      let! _ := update_files (fun fs => delete path fs) in
      emit (Removed path)
  | Some (File _), Some text => raise (Exception text)
  | _, _ => raise (Exception (lit "No such file"))
  end.

(** [shutil.rmtree(path)] *)
Definition rmtree (E : env) (path : str) : M unit :=
  let! fs := get_files in
  match fs !! path, remove_fault E with
  | Some Dir, None =>
      let! _ := update_files (fun fs => filter (fun kv => negb (in_tree path kv.1)) fs) in
      emit (Removed path)
  | Some Dir, Some text => raise (Exception text)
  | _, _ => raise (Exception (lit "Not a directory"))
  end.

End Os.

(** ** The process runners ([src/Code_Bug.py]) *)

Module Runner.

(** [e.stdout or ""] *)
Definition stdout_or_empty (out : option str) : str :=
  match out with Some s => s | None => [] end.

(** [str(e) or "Execution timed out"] *)
Definition text_or_default (text : str) : str :=
  if truthy text then text else lit "Execution timed out".

(** The two [except] clauses shared by both runners. *)
Definition handlers (e : exn) : option (M (Z * str * str)) :=
  match e with
  | TimeoutExpired out text =>
      Some (ret ((-1)%Z, stdout_or_empty out, text_or_default text))
  | Exception text => Some (ret ((-2)%Z, [], text))
  | BaseException _ => None
  end.

(** [try: cleanup / except Exception: pass] *)
Definition quietly (cleanup : M unit) : M unit :=
  try_except cleanup (fun e => if is_exception e then Some (ret tt) else None).

(** The body of the [try] of the Python runner. *)
Definition python_try (E : env) (path : str) (timeout : Z) : M (Z * str * str) :=
  let! proc := Os.subprocess_run E [executable E; path] timeout in
  ret proc.

Definition run_python_realtime (E : env) (code : str) (timeout : Z) : M (Z * str * str) :=
  let! path := Os.mkstemp E (lit ".py") in
  let! _ := Os.write_file E path code in
  try_finally
    (try_except (python_try E path timeout) handlers)
    (quietly (Os.remove E path)).

(** *** The two patterns searched in Java source *)

Definition is_ident_start (c : N) : bool :=
  ((65 <=? c) && (c <=? 90)) || ((97 <=? c) && (c <=? 122)) || (c =? 95).

Definition is_ident_char (c : N) : bool :=
  is_ident_start c || ((48 <=? c) && (c <=? 57)).

(** The pattern [public\s+class\s+(ID)], where [ID] is one character of
    [A-Za-z_] followed by any number of [A-Za-z0-9_], matched at the
    start of [s]; the answer is the group.  A run of whitespace is taken
    whole: what must follow it is never a whitespace character. *)
Definition match_public_class (s : str) : option str :=
  match strip_prefix (lit "public") s with
  | None => None
  | Some s1 =>
      match take_while isspace s1 with
      | [] => None
      | _ :: _ =>
          match strip_prefix (lit "class") (drop_while isspace s1) with
          | None => None
          | Some s3 =>
              match take_while isspace s3 with
              | [] => None
              | _ :: _ =>
                  match drop_while isspace s3 with
                  | c :: s5 =>
                      if is_ident_start c
                      then Some (c :: take_while is_ident_char s5)
                      else None
                  | [] => None
                  end
              end
          end
      end
  end.

(** [re.search] of that pattern: the leftmost position that matches. *)
Fixpoint search_public_class (s : str) : option str :=
  match match_public_class s with
  | Some g => Some g
  | None =>
      match s with
      | [] => None
      | _ :: s' => search_public_class s'
      end
  end.

Section Words.
Context `{CharTable}.

(** A character the pattern language counts as part of a word. *)
Definition is_word (c : N) : bool := isalnum c || (c =? 95).

(** The word [class] at the start of [s], with a boundary after it. *)
Definition class_word_here (s : str) : bool :=
  match strip_prefix (lit "class") s with
  | Some [] => true
  | Some (c :: _) => negb (is_word c)
  | None => false
  end.

(** [re.search(r'\b(class)\b', s)] finds something; [prev] tells
    whether the character before [s] is a word character. *)
Fixpoint search_class_word_from (prev : bool) (s : str) : bool :=
  (negb prev && class_word_here s) ||
  match s with
  | [] => false
  | c :: s' => search_class_word_from (is_word c) s'
  end.

Definition search_class_word (s : str) : bool := search_class_word_from false s.

Definition class_name_of (code : str) : str :=
  match search_public_class code with
  | Some g => g
  | None => lit "Main"
  end.

Definition java_source_of (code : str) : str :=
  if is_Some_b (search_public_class code) || search_class_word code then code
  else
    lit "public class " ++ class_name_of code
    ++ lit " {" ++ [10] ++ lit " public static void main(String[] args) {" ++ [10]
    ++ code ++ [10] ++ lit "}" ++ [10] ++ lit "}".

(** [not x] for what [shutil.which] returns. *)
Definition missing (x : option str) : bool :=
  match x with Some s => negb (truthy s) | None => true end.

(** The body of the [try] of the Java runner. *)
Definition java_try (E : env) (code : str) (timeout : Z)
    (javac java_exec : option str) (class_name tmpdir : str) : M (Z * str * str) :=
  let filename := join tmpdir (class_name ++ lit ".java") in
  let java_source := java_source_of code in
  let! _ := Os.write_file E filename java_source in
  let! comp := Os.subprocess_run E [default [] javac; filename] timeout in
  if negb (comp.1.1 =? 0)%Z then ret comp
  else
    let! run := Os.subprocess_run E
                  [default [] java_exec; lit "-cp"; tmpdir; class_name] timeout in
    ret run.

Definition run_java_realtime (E : env) (code : str) (timeout : Z) : M (Z * str * str) :=
  let javac := which E (lit "javac") in
  let java_exec := which E (lit "java") in
  if missing javac || missing java_exec then
    ret ((-3)%Z, [], lit "javac or java executable not found on PATH")
  else
    let class_name := class_name_of code in
    let! tmpdir := Os.mkdtemp E in
    try_finally
      (try_except (java_try E code timeout javac java_exec class_name tmpdir) handlers)
      (quietly (Os.rmtree E tmpdir)).

End Words.

End Runner.

(** ** The background download and the polling loop ([src/app.py]) *)

Module Relay.

Section Relay.
(** A progress dictionary handed to the hook, and the metadata the
    extraction returns. *)
Variables Ev Info : Type.

(** What the worker puts on the result queue. *)
Inductive operation_outcome :=
| Finished (info : Info)
| Error (text : str).

(** How [extract_info] ends: it returns, it raises an [Exception], or
    the thread dies of something [except Exception] does not catch. *)
Inductive ending :=
| Returns (info : Info)
| Fails (text : str)
| Dies.

Record operation := { ticks : list Ev; end_of : ending }.

(** Where [download_with_hook] stands in its thread. *)
Inductive worker :=
| Extracting (rest : list Ev) (e : ending)
| Putting (o : operation_outcome)
| Leaving
| Exited.

(** What the page shows once the loop is left. *)
Inductive report :=
| ShowError (text : str)
| ShowSuccess (info : Info).

(** Where the page stands: the two tests of the [while] condition, the
    inner draining loop, the sleep, the read of the result queue. *)
Inductive poller :=
| TestAlive
| TestResult
| Draining
| Sleeping
| GetResult
| Done (r : report).

Record state := {
  thread : worker;
  page : poller;
  events_q : list Ev;
  result_q : list operation_outcome;
  observed : list Ev
}.

Definition start (op : operation) : state :=
  {| thread := Extracting (ticks op) (end_of op); page := TestAlive;
     events_q := []; result_q := []; observed := [] |}.

Definition is_alive (s : state) : bool :=
  match thread s with Exited => false | _ => true end.

(** One step of the thread running [download_with_hook]: a tick calls
    [progress_hook], which puts the
    dictionary on the events queue; the end of the extraction leads to
    the [put] on the result queue, or to none. *)
Definition worker_step (s : state) : state :=
  match thread s with
  | Extracting (e :: rest) en =>
      {| thread := Extracting rest en; page := page s;
         events_q := events_q s ++ [e]; result_q := result_q s;
         observed := observed s |}
  | Extracting [] (Returns info) =>
      {| thread := Putting (Finished info); page := page s;
         events_q := events_q s; result_q := result_q s; observed := observed s |}
  | Extracting [] (Fails text) =>
      {| thread := Putting (Error text); page := page s;
         events_q := events_q s; result_q := result_q s; observed := observed s |}
  | Extracting [] Dies =>
      {| thread := Exited; page := page s;
         events_q := events_q s; result_q := result_q s; observed := observed s |}
  | Putting o =>
      {| thread := Leaving; page := page s;
         events_q := events_q s; result_q := result_q s ++ [o];
         observed := observed s |}
  | Leaving =>
      {| thread := Exited; page := page s;
         events_q := events_q s; result_q := result_q s; observed := observed s |}
  | Exited => s
  end.

Definition goto (p : poller) (s : state) : state :=
  {| thread := thread s; page := p; events_q := events_q s;
     result_q := result_q s; observed := observed s |}.

(** The lines after the loop, from the value read off the result queue. *)
Definition report_of (result : option operation_outcome) : report :=
  match result with
  | None => ShowError (lit "Download failed or was interrupted.")
  | Some (Error text) => ShowError (lit "Download failed: " ++ text)
  | Some (Finished info) => ShowSuccess info
  end.

(** One step of the page, the code after [download_thread.start()]: the
    [while download_thread.is_alive() or not result_q.empty()] loop, whose
    body takes events off [events_q] with [get_nowait] until [Empty] and
    then sleeps, and the [result_q.get_nowait()] after the loop.  What the
    placeholders display for an event is left out; [observed] records the
    events in the order they were taken. *)
Definition poller_step (s : state) : state :=
  match page s with
  | TestAlive => if is_alive s then goto Draining s else goto TestResult s
  | TestResult =>
      match result_q s with
      | _ :: _ => goto Draining s
      | [] => goto GetResult s
      end
  | Draining =>
      match events_q s with
      | ev :: q =>
          {| thread := thread s; page := Draining; events_q := q;
             result_q := result_q s; observed := observed s ++ [ev] |}
      | [] => goto Sleeping s
      end
  | Sleeping => goto TestAlive s
  | GetResult =>
      match result_q s with
      | o :: q =>
          {| thread := thread s; page := Done (report_of (Some o));
             events_q := events_q s; result_q := q; observed := observed s |}
      | [] => goto (Done (report_of None)) s
      end
  | Done _ => s
  end.

Inductive actor := Thread | Page.

Definition step (a : actor) (s : state) : state :=
  match a with Thread => worker_step s | Page => poller_step s end.

(** A run under a schedule: who moves at each instant. *)
Definition run (sched : list actor) (s : state) : state :=
  foldl (fun s a => step a s) s sched.

Definition left_loop (s : state) : bool :=
  match page s with GetResult | Done _ => true | _ => false end.

Definition outcome_of (e : ending) : option operation_outcome :=
  match e with
  | Returns info => Some (Finished info)
  | Fails text => Some (Error text)
  | Dies => None
  end.

(** The extraction has returned or raised. *)
Definition operation_over (s : state) : bool :=
  match thread s with Extracting _ _ => false | _ => true end.

End Relay.

Arguments Finished {Info} info.
Arguments Error {Info} text.
Arguments Returns {Info} info.
Arguments Fails {Info} text.
Arguments Dies {Info}.
Arguments Extracting {Ev Info} rest e.
Arguments Putting {Ev Info} o.
Arguments Leaving {Ev Info}.
Arguments Exited {Ev Info}.
Arguments ShowError {Info} text.
Arguments ShowSuccess {Info} info.
Arguments TestAlive {Info}.
Arguments TestResult {Info}.
Arguments Draining {Info}.
Arguments Sleeping {Info}.
Arguments GetResult {Info}.
Arguments Done {Info} r.
Arguments thread {Ev Info} s.
Arguments page {Ev Info} s.
Arguments events_q {Ev Info} s.
Arguments result_q {Ev Info} s.
Arguments observed {Ev Info} s.
Arguments start {Ev Info} op.
Arguments is_alive {Ev Info} s.
Arguments worker_step {Ev Info} s.
Arguments poller_step {Ev Info} s.
Arguments goto {Ev Info} p s.
Arguments report_of {Info} result.
Arguments step {Ev Info} a s.
Arguments run {Ev Info} sched s.
Arguments left_loop {Ev Info} s.
Arguments outcome_of {Info} e.
Arguments operation_over {Ev Info} s.
Arguments ticks {Ev Info} o.
Arguments end_of {Ev Info} o.

End Relay.

(** ** File names and the search for the downloaded file ([src/app.py]) *)

Module Files.

Record entry := { name : str; mtime : Z }.

(** [files.sort(key=os.path.getmtime, reverse=True)]: a stable sort,
    latest first, written as an insertion sort on the listing. *)
Fixpoint insert_desc (x : entry) (l : list entry) : list entry :=
  match l with
  | [] => [x]
  | y :: l' => if (mtime x <? mtime y)%Z then y :: insert_desc x l' else x :: l
  end.

Definition sort_latest_first (l : list entry) : list entry :=
  foldr insert_desc [] l.

(** A name the wildcard does not match: it starts with a dot. *)
Definition hidden (n : str) : bool := startswith n (lit ".").

(** [glob.has_magic]: the text holds a star, a question mark or an
    opening bracket, the characters a pattern does not take literally. *)
Definition has_magic (s : str) : bool :=
  existsb (fun c => (c =? 42) || (c =? 63) || (c =? 91)) s.

(** A text that, put between two stars, makes the last component of a
    pattern and stands for itself there: no wildcard character and no
    slash. *)
Definition literal (t : str) : bool :=
  negb (has_magic t) && negb (existsb (fun c => c =? 47) t).

(** The file system as the search meets it: the entries of the download
    directory in the order of [os.listdir], each with its modification
    time; [os.path.exists] for every path that is not the path of a listed
    entry; and what [glob.glob] finds for a pattern that the listing does
    not settle, because its directory part holds a wildcard character or
    its last component is not of the kind above.  An entry found by a
    search holds the path found and the time of that file. *)
Record disk := {
  listing : list entry;
  elsewhere : str -> bool;
  wild_glob : str -> list entry
}.

Section Files.
Context `{CharTable}.

(** The directory of the script; the downloads go below it. *)
Variable BASE_DIR : str.

Definition DOWNLOAD_DIR : str := join BASE_DIR (lit "downloads").

Definition keep (c : N) : bool :=
  isalnum c || (c =? 32) || (c =? 45) || (c =? 95).

Definition sanitize_filename (name : str) : str :=
  rstrip (List.filter keep name).

Definition path_of (e : entry) : str := join DOWNLOAD_DIR (name e).

(** A listed entry as a search returns it: under its path. *)
Definition at_path (e : entry) : entry :=
  {| name := path_of e; mtime := mtime e |}.

(** [glob.glob(os.path.join(DOWNLOAD_DIR, "*" + t + "*"))].  The path
    of the directory goes into the pattern as it is.  When it holds no
    wildcard character and [t] stands for itself, the pattern selects from
    the listing the names that contain [t], except those that start with a
    dot, which a pattern starting with a star never matches. *)
Definition glob_containing (d : disk) (t : str) : list entry :=
  if has_magic DOWNLOAD_DIR || negb (literal t)
  then wild_glob d (join DOWNLOAD_DIR (lit "*" ++ t ++ lit "*"))
  else List.map at_path
         (List.filter (fun e => negb (hidden (name e)) && contains t (name e))
            (listing d)).

(** [glob.glob(os.path.join(DOWNLOAD_DIR, "*"))] *)
Definition glob_all (d : disk) : list entry :=
  if has_magic DOWNLOAD_DIR
  then wild_glob d (join DOWNLOAD_DIR (lit "*"))
  else List.map at_path (List.filter (fun e => negb (hidden (name e))) (listing d)).

Definition find_latest_file_with_title (d : disk) (title : str) : option str :=
  match glob_containing d (sanitize_filename title) with
  | [] => None
  | files => head (List.map name (sort_latest_first files))
  end.

(** [os.path.exists] *)
Definition exists_path (d : disk) (p : str) : bool :=
  existsb (fun e => str_eqb (path_of e) p) (listing d) || elsewhere d p.

(** Truth value of [downloaded_file]. *)
Definition found (f : option str) : bool :=
  match f with Some p => truthy p | None => false end.

(** The search for the downloaded file; [expected] is what
    [prepare_filename] returns, [None] when it raises. *)
Definition resolve (d : disk) (expected : option str) (title : str) : option str :=
  let downloaded_file :=
    match expected with
    | Some p => if truthy p && exists_path d p then Some p else None
    | None => None
    end in
  let downloaded_file :=
    if negb (found downloaded_file) && truthy title
    then find_latest_file_with_title d title
    else downloaded_file in
  if negb (found downloaded_file) then
    match glob_all d with
    | [] => downloaded_file
    | files => head (List.map name (sort_latest_first files))
    end
  else downloaded_file.

End Files.

End Files.

(** ** The vocabulary of the explainer's description

    The sentences and markers by which the behaviour of the explainer is
    stated: one fixed sentence for no text, one for text without a visible
    line, and three tiers. *)

Module ExplainSpec.
Import Explain.

Definition no_errors_sentence (lang : language) : str :=
  match lang with
  | Python => lit "No runtime errors detected."
  | Java => lit "No compilation/runtime errors detected."
  end.

Definition blank_sentence (lang : language) : str :=
  match lang with
  | Python => lit "Runtime produced output but no errors present."
  | Java => lit "Java produced output on stderr but no clear message to summarize."
  end.

(** Tier 1: the compiler-error marker, which only Java has. *)
Definition compiler_marker (lang : language) (l : str) : bool :=
  match lang with
  | Python => false
  | Java => contains (lit "error:") l
  end.

Definition compile_summary (l : str) : str :=
  lit "Compilation error detected: " ++ strip l ++ lit " " ++ dash
  ++ lit " check the indicated file and line to fix syntax or type errors.".

(** Tier 2: the exception marker.  For Python it needs the word
    [Traceback] somewhere in the text. *)
Definition exception_marker (lang : language) (text l : str) : bool :=
  match lang with
  | Python =>
      contains (lit "Traceback") text
      && contains (lit ":") l && negb (startswith (strip l) (lit "File"))
  | Java => contains (lit "Exception") l || contains (lit "Error") l
  end.

Definition exception_summary (lang : language) (l : str) : str :=
  match lang with
  | Python =>
      lit "Detected runtime exception: " ++ strip l ++ lit " " ++ dash
      ++ lit " inspect traceback above to find offending line and fix the error (e.g., NameError, TypeError, IndexError)."
  | Java =>
      lit "Runtime exception detected: " ++ strip l ++ lit " " ++ dash
      ++ lit " inspect stack trace above for root cause."
  end.

(** Tier 3: the generic label. *)
Definition generic_label (lang : language) : str :=
  match lang with
  | Python => lit "Runtime stderr: "
  | Java => lit "Java stderr: "
  end.

Definition unmarked (p : str -> bool) (ls : list str) : Prop :=
  Forall (fun l => p l = false) ls.

(** The output the two-case description allows: the fixed sentence for
    empty text, and otherwise a tier applied to one of the visible lines. *)
Definition two_case_output (text : str) (lang : language) (out : str) : Prop :=
  (text = [] /\ out = no_errors_sentence lang)
  \/ (text <> [] /\
      exists l, In l (nonblank_lines text) /\
        (out = compile_summary l \/ out = exception_summary lang l
         \/ out = generic_label lang ++ l)).

End ExplainSpec.
(** ** The vocabulary of the runners' description *)

Module RunnerSpec.
Import Runner.

(** The command lines launched, in order. *)
Fixpoint launches (evs : list event) : list (list str) :=
  match evs with
  | [] => []
  | Spawned argv _ :: evs' => argv :: launches evs'
  | _ :: evs' => launches evs'
  end.

(** The processes killed, in order. *)
Fixpoint kills (evs : list event) : list (list str) :=
  match evs with
  | [] => []
  | Killed argv :: evs' => argv :: kills evs'
  | _ :: evs' => kills evs'
  end.

(** The result of a run cut short by the timeout of process [c]. *)
Definition timed_out (c : child) : Z * str * str :=
  ((-1)%Z, stdout_or_empty (buffered c), text_or_default (timeout_text c)).

(** The result of a process [c] left to finish. *)
Definition completed (c : child) : Z * str * str :=
  (returncode c, stdout c, stderr c).

(** The temporary file of the Python runner. *)
Definition python_path (E : env) : str := temp_name E ++ lit ".py".

Section Java.
Context `{CharTable}.

(** The source file of the Java runner, and its two command lines. *)
Definition java_file (E : env) (code : str) : str :=
  join (temp_name E) (class_name_of code ++ lit ".java").

Definition javac_argv (E : env) (code : str) : list str :=
  [default [] (which E (lit "javac")); java_file E code].

Definition java_argv (E : env) (code : str) : list str :=
  [default [] (which E (lit "java")); lit "-cp"; temp_name E; class_name_of code].

Definition toolchain_found (E : env) : Prop :=
  missing (which E (lit "javac")) = false /\ missing (which E (lit "java")) = false.
End Java.

End RunnerSpec.

(** ** The vocabulary of the Java patterns *)

Module PatternSpec.
Import Runner.

(** One or more whitespace characters. *)
Definition spaces (w : str) : Prop :=
  w <> [] /\ Forall (fun c => isspace c = true) w.

(** An identifier of the pattern: a letter or underscore, then letters,
    digits and underscores, all ASCII. *)
Definition identifier (g : str) : Prop :=
  exists c g', g = c :: g' /\ is_ident_start c = true
               /\ Forall (fun d => is_ident_char d = true) g'.

(** [s] starts with the words [public] and [class] and the whole
    identifier [g], separated by whitespace. *)
Definition declares_here (s g : str) : Prop :=
  exists w1 w2 rest,
    s = lit "public" ++ w1 ++ lit "class" ++ w2 ++ g ++ rest
    /\ spaces w1 /\ spaces w2 /\ identifier g
    /\ (forall d rest', rest = d :: rest' -> is_ident_char d = false).

(** [g] is the identifier of the first such place in [code]. *)
Definition first_public_class (code g : str) : Prop :=
  exists pre s,
    code = pre ++ s /\ declares_here s g
    /\ forall pre' s' g', code = pre' ++ s' -> (length pre' < length pre)%nat ->
                          ~ declares_here s' g'.

Definition no_public_class (code : str) : Prop :=
  forall pre s g, code = pre ++ s -> ~ declares_here s g.

Section Words.
Context `{CharTable}.

(** The word [class] stands in [code], no word character touching it. *)
Definition has_class_word (code : str) : Prop :=
  exists pre post,
    code = pre ++ lit "class" ++ post
    /\ (forall c, last pre = Some c -> is_word c = false)
    /\ (forall c, head post = Some c -> is_word c = false).
End Words.

(** The class-less code inside a [Main] class. *)
Definition wrapped (code : str) : str :=
  lit "public class Main {" ++ [10]
  ++ lit " public static void main(String[] args) {" ++ [10]
  ++ code ++ [10] ++ lit "}" ++ [10] ++ lit "}".

End PatternSpec.

(** ** The vocabulary of the relay's description *)

Module RelaySpec.
Import Relay.

Section RelaySpec.
Context {Ev Info : Type}.

(** The ticks the extraction has not emitted yet. *)
Definition pending (s : state Ev Info) : list Ev :=
  match thread s with
  | Extracting rest _ => rest
  | _ => []
  end.

(** How often the page moves in a schedule. *)
Fixpoint page_turns (sched : list actor) : nat :=
  match sched with
  | [] => 0%nat
  | Page :: sched' => S (page_turns sched')
  | Thread :: sched' => page_turns sched'
  end.

(** What holds of every state of a run of operation [op]. *)
Definition invariant (op : operation Ev Info) (s : state Ev Info) : Prop :=
  observed s ++ events_q s ++ pending s = ticks op
  /\ (page s = TestResult -> thread s = Exited)
  /\ match thread s with
     | Extracting _ e =>
         e = end_of op /\ result_q s = [] /\ left_loop s = false
     | Putting o =>
         outcome_of (end_of op) = Some o /\ result_q s = [] /\ left_loop s = false
     | Leaving =>
         exists o, outcome_of (end_of op) = Some o /\ result_q s = [o]
                   /\ left_loop s = false
     | Exited =>
         match outcome_of (end_of op) with
         | Some o => result_q s = [o] /\ left_loop s = false
         | None => result_q s = []
         end
     end.
End RelaySpec.

End RelaySpec.

(** ** The vocabulary of the file search *)

Module FilesSpec.
Import Files.

(** [e] is a latest entry among [cands]. *)
Definition latest_of (cands : list entry) (e : entry) : Prop :=
  In e cands /\ forall e', In e' cands -> (mtime e' <= mtime e)%Z.

Definition visible (e : entry) : bool := negb (hidden (name e)).

Section FilesSpec.
Context `{CharTable}.
Variable BASE_DIR : str.

(** The name of [e] contains the sanitized title. *)
Definition titled (title : str) (e : entry) : bool :=
  contains (sanitize_filename title) (name e).

(** The expected file name is there. *)
Definition expected_exists (d : disk) (expected : option str) : bool :=
  match expected with
  | Some p => truthy p && exists_path BASE_DIR d p
  | None => false
  end.

(** The three steps in their order, the searches of steps two and three
    ranging over the entries [cands] of the download directory. *)
Definition three_steps (cands : list entry) (d : disk)
    (expected : option str) (title : str) (result : option str) : Prop :=
  (expected_exists d expected = true -> result = expected)
  /\ (expected_exists d expected = false ->
      (List.filter (titled title) cands <> [] ->
       exists e, latest_of (List.filter (titled title) cands) e
                 /\ result = Some (path_of BASE_DIR e))
      /\ (List.filter (titled title) cands = [] -> cands <> [] ->
          exists e, latest_of cands e /\ result = Some (path_of BASE_DIR e))
      /\ (cands = [] -> result = None)).

(** The table behind [str.isalnum] agrees with ASCII on the ASCII
    characters. *)
Definition ascii_law : Prop := forall c, c < 128 -> isalnum c = ascii_isalnum c.

End FilesSpec.

End FilesSpec.

(** ** Sample inputs *)

Module Samples.

(** A process that prints [2] and ends at once. *)
Definition quick : child :=
  {| duration := 1; returncode := 0; stdout := lit "2"; stderr := [];
     buffered := None; timeout_text := []; leaves := [] |}.


(** A compiler run that rejects the source. *)
Definition rejecting : child :=
  {| duration := 1; returncode := 1; stdout := [];
     stderr := lit "Main.java:3: error: ';' expected";
     buffered := None; timeout_text := [];
     leaves := [] |}.

(** A machine with the whole toolchain, on which every launched process
    behaves as [c] and removing files fails when [fault] says so. *)
Definition host (c : child) (fault : option str) : env :=
  {| which := fun x => Some (lit "/usr/bin/" ++ x);
     executable := lit "/usr/bin/python3";
     temp_name := lit "/tmp/tmpk3x9";
     write_fault := None;
     spawn := fun _ => Launched c;
     remove_fault := fault |}.

(** A machine without a Java toolchain. *)
Definition bare : env :=
  {| which := fun _ => None;
     executable := lit "/usr/bin/python3";
     temp_name := lit "/tmp/tmpk3x9";
     write_fault := None;
     spawn := fun _ => Launched quick;
     remove_fault := None |}.

Definition empty_world : world := {| files := ∅; log := [] |}.

(** The directory of the script in the examples. *)
Definition app_dir : str := lit "/srv/app".

(** A directory of the script whose name holds a wildcard character. *)
Definition bracket_dir : str := lit "/srv/app[1]".

(** A disk on which nothing exists but the listed entries of the download
    directory, and on which a pattern that goes through another directory
    finds nothing. *)
Definition only (l : list Files.entry) : Files.disk :=
  {| Files.listing := l;
     Files.elsewhere := fun _ => false;
     Files.wild_glob := fun _ => [] |}.

(** A disk with an empty download directory and one file in [/tmp]. *)
Definition elsewhere_only : Files.disk :=
  {| Files.listing := [];
     Files.elsewhere := fun p => str_eqb p (lit "/tmp/My Title.mp3");
     Files.wild_glob := fun _ => [] |}.

End Samples.

(** ** The static checks of the review page ([src/Code_Bug.py]) *)

Module Review.

(** A pattern made of a literal, any run of whitespace and a second
    literal that does not start with whitespace, matched at the start of
    [s]: the whitespace is taken whole. *)
Definition match_gap (a b s : str) : bool :=
  match strip_prefix a s with
  | Some r => startswith (drop_while isspace r) b
  | None => false
  end.

(** [re.search] of such a pattern. *)
Fixpoint search_gap (a b s : str) : bool :=
  match_gap a b s ||
  match s with
  | [] => false
  | _ :: s' => search_gap a b s'
  end.

Definition debug_print_issue : str :=
  lit "Debug print statements found (remove in production).".

Definition generic_catch_issue : str :=
  lit "Catching generic Exception is discouraged.".

Definition string_equality_issue : str :=
  lit "String comparison using == detected (use .equals()).".

(** The three searches are [System\.out\.println], [catch\s*\(Exception]
    and [==\s*] followed by a double quote. *)
Definition detect_java_issues (code : str) : list str :=
  let issues := [] in
  let issues :=
    if contains (lit "System.out.println") code
    then issues ++ [debug_print_issue] else issues in
  let issues :=
    if search_gap (lit "catch") (lit "(Exception") code
    then issues ++ [generic_catch_issue] else issues in
  let issues :=
    if search_gap (lit "==") [34] code
    then issues ++ [string_equality_issue] else issues in
  issues.

Definition refactoring_suggestions (language : str) : list str :=
  if str_eqb language (lit "Python") then
    [lit "Use list/dict comprehensions where possible";
     lit "Break large functions into smaller ones";
     lit "Use logging instead of print";
     lit "Follow PEP8 naming conventions"]
  else
    [lit "Use proper exception hierarchy";
     lit "Avoid deeply nested loops";
     lit "Follow SOLID principles";
     lit "Remove unused imports"].

(** The sentence built around one issue. *)
Definition explain_issue (language issue : str) : str :=
  lit "In your " ++ language ++ lit " code, the issue detected is: '" ++ issue
  ++ lit "'. This can lead to runtime errors, security risks, or maintenance problems. It is recommended to refactor this part following best practices.".

Definition explain_issues_nl (issues : list str) (language : str) : list str :=
  foldl (fun explanations issue => explanations ++ [explain_issue language issue])
        [] issues.

Definition main_missing_error : str :=
  lit "Java Runtime Error Risk: main method not found.".

Definition null_pointer_error : str :=
  lit "Potential NullPointerException usage detected.".

(** [compile_error] stands for the interpreter's [compile]: the text of
    the exception it raises on the code, if it raises one. *)
Definition runtime_error_detection (compile_error : str -> option str)
    (code language : str) : list str :=
  let errors := [] in
  if str_eqb language (lit "Python") then
    match compile_error code with
    | Some text => errors ++ [text]
    | None => errors
    end
  else
    let errors :=
      if negb (contains (lit "public static void main") code)
      then errors ++ [main_missing_error] else errors in
    let errors :=
      if contains (lit "NullPointerException") code
      then errors ++ [null_pointer_error] else errors in
    errors.

End Review.

(** ** The vocabulary of the static checks *)

Module ReviewSpec.

(** [x] stands somewhere in [s]. *)
Definition occurs (x s : str) : Prop := exists pre post, s = pre ++ x ++ post.

(** [a], any whitespace, then [b] stand somewhere in [s]. *)
Definition occurs_with_gap (a b s : str) : Prop :=
  exists pre w post,
    s = pre ++ a ++ w ++ b ++ post /\ Forall (fun c => isspace c = true) w.

End ReviewSpec.

(** ** The download options ([src/app.py]) *)

Module Options.

(** The values the options dictionary holds. *)
Inductive value :=
| Str (s : str)
| Flag (b : bool)
| Postprocessors (steps : list (list (string * str))).

Definition best_choice : str := lit "best (video+audio)".
Definition mp4_choice : str := lit "mp4 (video)".
Definition mp3_choice : str := lit "mp3 (audio only)".

(** The long dash of the two warnings. *)
Definition long_dash : str := [8212].

Definition merge_warning : str :=
  lit "ffmpeg not found " ++ long_dash
  ++ lit " will download a single-file 'best' format instead of merging.".

Definition convert_warning : str :=
  lit "ffmpeg not found " ++ long_dash
  ++ lit " mp3 conversion skipped; raw audio file will be downloaded.".

(** [which_ffmpeg] is what [shutil.which("ffmpeg")] answers; the result
    is the options to use and the warning shown, if any. *)
Definition adjust_opts_for_ffmpeg (which_ffmpeg : option str)
    (opts : gmap string value) (choice : str) : gmap string value * option str :=
  let has_ffmpeg := is_Some_b which_ffmpeg in
  if has_ffmpeg then (opts, None)
  else if str_eqb choice best_choice || str_eqb choice mp4_choice then
    let new_opts := opts in
    let new_opts := <["format" := Str (lit "best")]> new_opts in
    let new_opts := delete "postprocessors" new_opts in
    (new_opts, Some merge_warning)
  else if str_eqb choice mp3_choice then
    let new_opts := opts in
    let new_opts := delete "postprocessors" new_opts in
    (new_opts, Some convert_warning)
  else (opts, None).

Section Options.
Variable BASE_DIR : str.

Definition common_opts (format : str) : gmap string value :=
  <["format" := Str format]>
    (<["outtmpl" := Str (join (Files.DOWNLOAD_DIR BASE_DIR) (lit "%(title)s.%(ext)s"))]>
       (<["noplaylist" := Flag true]>
          (<["quiet" := Flag true]>
             (<["no_warnings" := Flag true]> ∅)))).

(** The options chosen by the selector of the page. *)
Definition ydl_opts_for (choice : str) : gmap string value :=
  if str_eqb choice best_choice then
    common_opts (lit "bestvideo+bestaudio/best")
  else if str_eqb choice mp4_choice then
    common_opts (lit "bestvideo[ext=mp4]+bestaudio[ext=m4a]/mp4")
  else
    <["postprocessors" :=
        Postprocessors [[("key"%string, lit "FFmpegExtractAudio");
                         ("preferredcodec"%string, lit "mp3");
                         ("preferredquality"%string, lit "192")]]]>
      (common_opts (lit "bestaudio/best")).

(** The options handed to the download thread. *)
Definition prepare_opts (which_ffmpeg : option str) (choice : str)
    : gmap string value * option str :=
  let ydl_opts := ydl_opts_for choice in
  let ydl_opts := <["restrictfilenames" := Flag true]> ydl_opts in
  adjust_opts_for_ffmpeg which_ffmpeg ydl_opts choice.

End Options.

(** The choices the selector offers. *)
Definition choices : list str := [best_choice; mp4_choice; mp3_choice].

(** A format that asks for two streams to be merged. *)
Definition asks_merge (v : option value) : bool :=
  match v with
  | Some (Str format) => contains (lit "+") format
  | _ => false
  end.

End Options.

(** ** The run buttons of the review page ([src/Code_Bug.py]) *)

Module Page.
Import Explain Runner.

(** What the page displays, call by call. *)
Inductive widget :=
| St_success (t : str)
| St_error (t : str)
| St_subheader (t : str)
| St_code (t : str)
| St_info (t : str).

(** [str(rc)] for an integer. *)
Definition str_of_Z (z : Z) : str := lit (NilZero.string_of_int (Z.to_int z)).

Definition exit_code_line (rc : Z) : str :=
  lit "Process exited with code: " ++ str_of_Z rc.

(** What follows the run of uploaded Python code. *)
Definition show_python_result (rc : Z) (out err : str) : list widget :=
  if (rc =? 0)%Z && negb (truthy err) then
    St_success (lit "No errors occurred during execution.")
    :: (if truthy out then [St_subheader (lit "Program Output"); St_code out] else [])
  else
    St_error (lit "Errors occurred during execution.")
    :: (if truthy err then
          [St_subheader (lit "Error Traceback / Stderr"); St_code err;
           St_subheader (lit "Explanation");
           St_info (explain_runtime_error err (lit "Python"))]
        else [St_info (exit_code_line rc)]).

(** What follows the run of uploaded Java code. *)
Definition show_java_result (rc : Z) (out err : str) : list widget :=
  if (rc =? 0)%Z && negb (truthy err) then
    St_success (lit "No errors occurred during execution.")
    :: (if truthy out then [St_subheader (lit "Program Output"); St_code out] else [])
  else if (rc =? -3)%Z then
    [St_error (lit "Java toolchain not found: javac/java must be on PATH to run Java code.")]
  else
    St_error (lit "Errors occurred during compilation or execution.")
    :: (if truthy err then
          [St_subheader (lit "Compiler / Runtime Stderr"); St_code err;
           St_subheader (lit "Explanation");
           St_info (explain_java_error err)]
        else [St_info (exit_code_line rc)]).

(** The button [Run Uploaded Python Code]: the runner with a timeout of
    six seconds, then the display. *)
Definition run_uploaded_python (E : env) (code : str) : M (list widget) :=
  let! result := run_python_realtime E code 6 in
  ret (show_python_result result.1.1 result.1.2 result.2).

Section Java.
Context `{CharTable}.

(** The button [Run Uploaded Java Code]: the runner with a timeout of
    ten seconds, then the display. *)
Definition run_uploaded_java (E : env) (code : str) : M (list widget) :=
  let! result := run_java_realtime E code 10 in
  ret (show_java_result result.1.1 result.1.2 result.2).

End Java.

End Page.

(** ** The outcomes of the runners, path by path *)

Module Outcomes.
Import Runner RunnerSpec.

(** What [tempfile.mkstemp] and [tempfile.mkdtemp] answer: the file or
    the directory is made, or the call raises with a text and makes
    nothing (no usable temporary directory, no space left). *)
Inductive temp := Made | NotMade (text : str).

Definition mkstemp_or_raise (T : temp) (E : env) (suffix : str) : M str :=
  match T with
  | Made => Os.mkstemp E suffix
  | NotMade text => raise (Exception text)
  end.

Definition mkdtemp_or_raise (T : temp) (E : env) : M str :=
  match T with
  | Made => Os.mkdtemp E
  | NotMade text => raise (Exception text)
  end.

(** The Python runner from its first line, the answer of
    [tempfile.mkstemp] included; [run_python_realtime] is the run in
    which the file is made. *)
Definition run_python_realtime_from (T : temp) (E : env) (code : str) (timeout : Z)
    : M (Z * str * str) :=
  let! path := mkstemp_or_raise T E (lit ".py") in
  let! _ := Os.write_file E path code in
  try_finally
    (try_except (python_try E path timeout) handlers)
    (quietly (Os.remove E path)).

(** The result of the Python runner and how the call of the interpreter
    went. *)
Inductive python_outcome (E : env) (timeout : Z) : Z * str * str -> Prop :=
| PyFailed text :
    spawn E [executable E; python_path E] = Failed text ->
    python_outcome E timeout ((-2)%Z, [], text)
| PyTimedOut c :
    spawn E [executable E; python_path E] = Launched c ->
    (timeout < duration c)%Z ->
    python_outcome E timeout (timed_out c)
| PyCompleted c :
    spawn E [executable E; python_path E] = Launched c ->
    (duration c <= timeout)%Z ->
    python_outcome E timeout (completed c).

Section Java.
Context `{CharTable}.

(** The Java runner from its first line, the answer of
    [tempfile.mkdtemp] included; [run_java_realtime] is the run in which
    the directory is made. *)
Definition run_java_realtime_from (T : temp) (E : env) (code : str) (timeout : Z)
    : M (Z * str * str) :=
  let javac := which E (lit "javac") in
  let java_exec := which E (lit "java") in
  if missing javac || missing java_exec then
    ret ((-3)%Z, [], lit "javac or java executable not found on PATH")
  else
    let class_name := class_name_of code in
    let! tmpdir := mkdtemp_or_raise T E in
    try_finally
      (try_except (java_try E code timeout javac java_exec class_name tmpdir) handlers)
      (quietly (Os.rmtree E tmpdir)).

(** The result of the Java runner with the toolchain at hand, and the
    command lines it launched. *)
Inductive java_outcome (E : env) (code : str) (timeout : Z)
    : Z * str * str -> list (list str) -> Prop :=
| JWriteFailed text :
    write_fault E = Some text ->
    java_outcome E code timeout ((-2)%Z, [], text) []
| JCompileFailed text :
    write_fault E = None ->
    spawn E (javac_argv E code) = Failed text ->
    java_outcome E code timeout ((-2)%Z, [], text) [javac_argv E code]
| JCompileTimedOut c :
    write_fault E = None ->
    spawn E (javac_argv E code) = Launched c -> (timeout < duration c)%Z ->
    java_outcome E code timeout (timed_out c) [javac_argv E code]
| JCompileRejected c :
    write_fault E = None ->
    spawn E (javac_argv E code) = Launched c -> (duration c <= timeout)%Z ->
    returncode c <> 0%Z ->
    java_outcome E code timeout (completed c) [javac_argv E code]
| JRunFailed c text :
    write_fault E = None ->
    spawn E (javac_argv E code) = Launched c -> (duration c <= timeout)%Z ->
    returncode c = 0%Z ->
    spawn E (java_argv E code) = Failed text ->
    java_outcome E code timeout ((-2)%Z, [], text) [javac_argv E code; java_argv E code]
| JRunTimedOut c d :
    write_fault E = None ->
    spawn E (javac_argv E code) = Launched c -> (duration c <= timeout)%Z ->
    returncode c = 0%Z ->
    spawn E (java_argv E code) = Launched d -> (timeout < duration d)%Z ->
    java_outcome E code timeout (timed_out d) [javac_argv E code; java_argv E code]
| JRunCompleted c d :
    write_fault E = None ->
    spawn E (javac_argv E code) = Launched c -> (duration c <= timeout)%Z ->
    returncode c = 0%Z ->
    spawn E (java_argv E code) = Launched d -> (duration d <= timeout)%Z ->
    java_outcome E code timeout (completed d) [javac_argv E code; java_argv E code].

End Java.

End Outcomes.

(** ** Measures of progress of the relay *)

Module RelayProgress.
Import Relay.

Section RelayProgress.
Context {Ev Info : Type}.

(** The moves the thread still has to make. *)
Definition thread_rank (s : state Ev Info) : nat :=
  match thread s with
  | Extracting rest _ => (length rest + 3)%nat
  | Putting _ => 2%nat
  | Leaving => 1%nat
  | Exited => 0%nat
  end.

(** The moves after which the page, kept in its loop, has emptied the
    events queue. *)
Definition drain_rank (s : state Ev Info) : nat :=
  match page s with
  | Sleeping => (length (events_q s) + 3)%nat
  | TestAlive => (length (events_q s) + 2)%nat
  | TestResult => (length (events_q s) + 1)%nat
  | _ => length (events_q s)
  end.

(** The moves after which the page, with the thread dead and no result,
    has left its loop and shown its report. *)
Definition exit_rank (s : state Ev Info) : nat :=
  match page s with
  | Draining => (length (events_q s) + 5)%nat
  | Sleeping => 4%nat
  | TestAlive => 3%nat
  | TestResult => 2%nat
  | GetResult => 1%nat
  | Done _ => 0%nat
  end.

End RelayProgress.

End RelayProgress.

(** ** The download button ([src/app.py]) *)

Module DownloadPage.
Import Options.

(** What a click on the button leads to: a message and nothing else, or
    a download started with the prepared options. *)
Inductive click :=
| Rejected (message : str)
| Started (opts : gmap string value) (warning : option str).

Definition download_clicked (BASE_DIR : str) (which_ffmpeg : option str)
    (url choice : str) : click :=
  if negb (truthy (strip url)) then Rejected (lit "Please paste a YouTube URL.")
  else
    Started (prepare_opts BASE_DIR which_ffmpeg choice).1
            (prepare_opts BASE_DIR which_ffmpeg choice).2.

End DownloadPage.

(** ** More sample inputs *)

Module MoreSamples.
Import Samples.

(** A machine with the toolchain on which no file can be written. *)
Definition full_disk : env :=
  {| which := fun x => Some (lit "/usr/bin/" ++ x);
     executable := lit "/usr/bin/python3";
     temp_name := lit "/tmp/tmpk3x9";
     write_fault := Some (lit "No space left on device");
     spawn := fun _ => Launched quick;
     remove_fault := None |}.

(** A compiler run that a signal ended. *)
Definition signalled : child :=
  {| duration := 1; returncode := -3; stdout := []; stderr := lit "Quit";
     buffered := None; timeout_text := []; leaves := [] |}.

(** Options with a post-processing step. *)
Definition audio_opts : gmap string Options.value :=
  <["postprocessors" := Options.Postprocessors []]>
    (<["format" := Options.Str (lit "bestaudio/best")]>
       (<["quiet" := Options.Flag true]> ∅)).

End MoreSamples.

(** * Properties *)

(** ** Text *)

Section TextFacts.

Lemma drop_while_head p s c t : drop_while p s = c :: t -> p c = false.
Proof.
  induction s as [|a s IH]; simpl; [discriminate|].
  destruct (p a) eqn:Ha; [exact IH|].
  intros [= <- _]. exact Ha.
Qed.

Lemma drop_while_fixed p s :
  (forall c t, s = c :: t -> p c = false) -> drop_while p s = s.
Proof.
  destruct s as [|a s]; simpl; [reflexivity|].
  intros Hs. rewrite (Hs a s eq_refl). reflexivity.
Qed.

Lemma drop_while_idem p s : drop_while p (drop_while p s) = drop_while p s.
Proof.
  apply drop_while_fixed. intros c t Hc. exact (drop_while_head _ _ _ _ Hc).
Qed.

Lemma take_drop_while p s : take_while p s ++ drop_while p s = s.
Proof.
  induction s as [|a s IH]; simpl; [reflexivity|].
  destruct (p a); simpl; [now rewrite IH | reflexivity].
Qed.

Lemma take_while_all p s : Forall (fun c => p c = true) (take_while p s).
Proof.
  induction s as [|a s IH]; simpl; [constructor|].
  destruct (p a) eqn:Ha; constructor; assumption.
Qed.

Lemma drop_while_incl p s c : In c (drop_while p s) -> In c s.
Proof.
  induction s as [|a s IH]; simpl; [tauto|].
  destruct (p a); simpl; tauto.
Qed.

Lemma rstrip_idem s : rstrip (rstrip s) = rstrip s.
Proof. unfold rstrip. rewrite rev_involutive, drop_while_idem. reflexivity. Qed.

Lemma rstrip_last s c : last (rstrip s) = Some c -> isspace c = false.
Proof.
  unfold rstrip. destruct (drop_while isspace (rev s)) as [|a t] eqn:Hd; simpl.
  - discriminate.
  - rewrite last_snoc. intros [= <-]. exact (drop_while_head _ _ _ _ Hd).
Qed.

Lemma rstrip_incl s c : In c (rstrip s) -> In c s.
Proof.
  unfold rstrip. rewrite <- in_rev. intros Hc. apply drop_while_incl in Hc.
  now apply in_rev.
Qed.

Lemma filter_fixed {A} (p : A -> bool) l :
  (forall x, In x l -> p x = true) -> List.filter p l = l.
Proof.
  induction l as [|a l IH]; simpl; [reflexivity|]. intros Hl.
  rewrite (Hl a (or_introl eq_refl)), IH; [reflexivity|]. intros x Hx. apply Hl. now right.
Qed.

End TextFacts.

(** ** The sanitizer *)

Section SanitizeFacts.
Context `{CharTable}.

Lemma sanitize_filename_keeps name c :
  In c (Files.sanitize_filename name) -> Files.keep c = true.
Proof.
  unfold Files.sanitize_filename. intros Hc. apply rstrip_incl in Hc.
  apply filter_In in Hc. tauto.
Qed.

(** C9.  Whatever the name, [sanitize_filename] returns only characters
    that are alphanumeric, a space, a hyphen or an underscore; its result
    does not end in whitespace; and sanitizing a second time changes
    nothing. *)
Theorem sanitize_filename_spec (name : str) :
  Forall (fun c => isalnum c = true \/ c = 32 \/ c = 45 \/ c = 95)
         (Files.sanitize_filename name)
  /\ (forall c, last (Files.sanitize_filename name) = Some c -> isspace c = false)
  /\ Files.sanitize_filename (Files.sanitize_filename name) = Files.sanitize_filename name.
Proof.
  split; [|split].
  - apply List.Forall_forall. intros c Hc. apply sanitize_filename_keeps in Hc.
    unfold Files.keep in Hc.
    repeat (apply orb_true_iff in Hc; destruct Hc as [Hc|Hc]);
      rewrite ?N.eqb_eq in Hc; tauto.
  - intros c. apply rstrip_last.
  - unfold Files.sanitize_filename at 1.
    rewrite filter_fixed by (intros c; apply sanitize_filename_keeps).
    unfold Files.sanitize_filename. apply rstrip_idem.
Qed.

End SanitizeFacts.

(** ** The explainers *)

Section ListFacts.
Context {A : Type} (p : A -> bool).

Lemma find_first l x :
  List.find p l = Some x <->
  exists pre post, l = pre ++ x :: post /\ p x = true /\ Forall (fun y => p y = false) pre.
Proof.
  induction l as [|a l IH]; simpl.
  - split; [discriminate|]. intros (pre & post & Hl & _). destruct pre; discriminate.
  - destruct (p a) eqn:Ha.
    + split.
      * intros [= <-]. exists [], l. repeat split; [assumption|constructor].
      * intros (pre & post & Hl & Hx & Hpre). destruct pre as [|b pre]; simpl in Hl.
        -- congruence.
        -- injection Hl as <- _. inversion Hpre; congruence.
    + rewrite IH. split.
      * intros (pre & post & -> & Hx & Hpre). exists (a :: pre), post.
        repeat split; [assumption|]. constructor; assumption.
      * intros (pre & post & Hl & Hx & Hpre). destruct pre as [|b pre]; simpl in Hl.
        -- congruence.
        -- injection Hl as <- ->. inversion Hpre; subst. eauto.
Qed.

Lemma find_none l : List.find p l = None <-> Forall (fun y => p y = false) l.
Proof.
  induction l as [|a l IH]; simpl.
  - split; [constructor|reflexivity].
  - destruct (p a) eqn:Ha.
    + split; [discriminate|]. inversion 1; congruence.
    + rewrite IH. split; [now constructor|]. now inversion 1.
Qed.

Lemma find_last l x :
  List.find p (rev l) = Some x <->
  exists pre post, l = pre ++ x :: post /\ p x = true /\ Forall (fun y => p y = false) post.
Proof.
  rewrite find_first. split.
  - intros (pre & post & Hl & Hx & Hpre). exists (rev post), (rev pre).
    apply (f_equal (@rev A)) in Hl. rewrite rev_involutive in Hl.
    rewrite Hl, rev_app_distr. simpl. rewrite <- app_assoc. simpl.
    repeat split; [assumption|].
    apply List.Forall_forall. intros y Hy. rewrite <- in_rev in Hy.
    rewrite List.Forall_forall in Hpre. now apply Hpre.
  - intros (pre & post & -> & Hx & Hpost). exists (rev post), (rev pre).
    rewrite rev_app_distr. simpl. rewrite <- app_assoc. simpl.
    repeat split; [assumption|].
    apply List.Forall_forall. intros y Hy. rewrite <- in_rev in Hy.
    rewrite List.Forall_forall in Hpost. now apply Hpost.
Qed.

Lemma existsb_false l : existsb p l = false <-> Forall (fun y => p y = false) l.
Proof.
  induction l as [|a l IH]; simpl.
  - split; [constructor|reflexivity].
  - rewrite orb_false_iff, IH. split; [intros []; now constructor|now inversion 1].
Qed.

Lemma unmarked_app_inv (l1 l2 : list A) :
  Forall (fun y => p y = false) (l1 ++ l2) ->
  Forall (fun y => p y = false) l1 /\ Forall (fun y => p y = false) l2.
Proof. apply List.Forall_app. Qed.

End ListFacts.

Section ExplainFacts.
Import Explain ExplainSpec.

Lemma last_is_Some {A} (l : list A) : l <> [] -> exists x, last l = Some x.
Proof.
  intros Hl. destruct (last l) as [x|] eqn:Hx; [eauto|].
  apply last_None in Hx. contradiction.
Qed.

Lemma find_existsb {A} (p : A -> bool) l :
  (if existsb p l then
     match List.find p l with Some x => Some x | None => None end
   else None) = List.find p l.
Proof.
  destruct (existsb p l) eqn:He; [now destruct (List.find p l)|].
  symmetry. apply find_none. now apply existsb_false.
Qed.

(** The Java explainer on a text with a visible line, as a search
    through the three tiers. *)
Lemma explain_java_error_tiers text x :
  text <> [] -> last (nonblank_lines text) = Some x ->
  explain_java_error text =
    match List.find (compiler_marker Java) (nonblank_lines text) with
    | Some l => compile_summary l
    | None =>
        match List.find (exception_marker Java text) (rev (nonblank_lines text)) with
        | Some l => exception_summary Java l
        | None => generic_label Java ++ x
        end
    end.
Proof.
  intros Ht Hx. unfold explain_java_error. destruct text as [|c t]; [contradiction|].
  cbn [truthy negb]. rewrite Hx.
  change is_compile_error_line with (compiler_marker Java).
  change is_java_exception_line with (exception_marker Java (c :: t)).
  destruct (existsb (compiler_marker Java) (nonblank_lines (c :: t))) eqn:He.
  - destruct (List.find (compiler_marker Java) (nonblank_lines (c :: t))) eqn:Hf;
      reflexivity.
  - apply existsb_false, find_none in He. rewrite He. reflexivity.
Qed.

Lemma exception_marker_python text l :
  exception_marker Python text l = contains (lit "Traceback") text && is_exception_line l.
Proof. unfold exception_marker, is_exception_line. now rewrite andb_assoc. Qed.

Lemma find_python_marker text ls :
  List.find (exception_marker Python text) ls =
    if contains (lit "Traceback") text then List.find is_exception_line ls else None.
Proof.
  induction ls as [|l ls IH]; cbn [List.find].
  - now destruct (contains _ text).
  - rewrite exception_marker_python, IH.
    destruct (contains (lit "Traceback") text); reflexivity.
Qed.

(** The Python explainer on a text with a visible line: two tiers. *)
Lemma explain_runtime_error_tiers text x :
  text <> [] -> last (nonblank_lines text) = Some x ->
  explain_runtime_error text (lit "Python") =
    match List.find (exception_marker Python text) (rev (nonblank_lines text)) with
    | Some l => exception_summary Python l
    | None => generic_label Python ++ x
    end.
Proof.
  intros Ht Hx. unfold explain_runtime_error. destruct text as [|c t]; [contradiction|].
  cbn [truthy negb]. rewrite Hx, find_python_marker.
  replace (str_eqb (lit "Python") (lit "Python")) with true by reflexivity.
  destruct (contains (lit "Traceback") (c :: t)); [|reflexivity].
  destruct (List.find is_exception_line (rev (nonblank_lines (c :: t)))); reflexivity.
Qed.

Lemma explain_tiers_search text lang x :
  text <> [] -> last (nonblank_lines text) = Some x ->
  explain text lang =
    match List.find (compiler_marker lang) (nonblank_lines text) with
    | Some l => compile_summary l
    | None =>
        match List.find (exception_marker lang text) (rev (nonblank_lines text)) with
        | Some l => exception_summary lang l
        | None => generic_label lang ++ x
        end
    end.
Proof.
  intros Ht Hx. destruct lang; simpl explain.
  - rewrite (explain_runtime_error_tiers text x Ht Hx).
    replace (List.find (compiler_marker Python) (nonblank_lines text)) with (@None str);
      [reflexivity|].
    symmetry. apply find_none. apply List.Forall_forall. reflexivity.
  - apply explain_java_error_tiers; assumption.
Qed.

Lemma explain_empty lang : explain [] lang = no_errors_sentence lang.
Proof. destruct lang; reflexivity. Qed.

Lemma explain_blank text lang :
  text <> [] -> nonblank_lines text = [] -> explain text lang = blank_sentence lang.
Proof.
  intros Ht Hl. destruct text as [|c t]; [contradiction|].
  destruct lang; simpl; unfold explain_runtime_error, explain_java_error;
    cbn [truthy negb]; rewrite Hl; reflexivity.
Qed.

Lemma nonblank_text text : nonblank_lines text <> [] -> text <> [].
Proof. intros Hl ->. now apply Hl. Qed.

(** C7, as the code has it.  The explainer is a function of the text and
    the language, so equal inputs give equal outputs.  Empty text gives
    the fixed sentence for no errors; text without a visible line gives a
    second fixed sentence.  Otherwise the first tier that applies decides:
    the first visible line with the compiler-error marker is summarized;
    failing that, the last visible line with the exception marker is
    summarized; failing that, the last visible line follows the generic
    label unchanged. *)
Theorem explain_first_match_wins (text : str) (lang : language) :
  (forall text' lang', text' = text -> lang' = lang ->
     explain text' lang' = explain text lang)
  /\ (text = [] -> explain text lang = no_errors_sentence lang)
  /\ (text <> [] -> nonblank_lines text = [] ->
      explain text lang = blank_sentence lang)
  /\ (forall pre l post, nonblank_lines text = pre ++ l :: post ->
      compiler_marker lang l = true -> unmarked (compiler_marker lang) pre ->
      explain text lang = compile_summary l)
  /\ (forall pre l post, nonblank_lines text = pre ++ l :: post ->
      unmarked (compiler_marker lang) (nonblank_lines text) ->
      exception_marker lang text l = true ->
      unmarked (exception_marker lang text) post ->
      explain text lang = exception_summary lang l)
  /\ (forall pre l, nonblank_lines text = pre ++ [l] ->
      unmarked (compiler_marker lang) (nonblank_lines text) ->
      unmarked (exception_marker lang text) (nonblank_lines text) ->
      explain text lang = generic_label lang ++ l).
Proof.
  repeat split.
  - intros text' lang' -> ->. reflexivity.
  - intros ->. apply explain_empty.
  - apply explain_blank.
  - intros pre l post Hl Hm Hpre.
    assert (Hne : nonblank_lines text <> []) by (rewrite Hl; now destruct pre).
    destruct (last_is_Some _ Hne) as [x Hx].
    rewrite (explain_tiers_search text lang x (nonblank_text _ Hne) Hx).
    replace (List.find (compiler_marker lang) (nonblank_lines text)) with (Some l);
      [reflexivity|].
    symmetry. apply find_first. eauto.
  - intros pre l post Hl Hc Hm Hpost.
    assert (Hne : nonblank_lines text <> []) by (rewrite Hl; now destruct pre).
    destruct (last_is_Some _ Hne) as [x Hx].
    rewrite (explain_tiers_search text lang x (nonblank_text _ Hne) Hx).
    apply find_none in Hc. rewrite Hc.
    replace (List.find (exception_marker lang text) (rev (nonblank_lines text)))
      with (Some l); [reflexivity|].
    symmetry. apply find_last. eauto.
  - intros pre l Hl Hc Hm.
    assert (Hne : nonblank_lines text <> []) by (rewrite Hl; now destruct pre).
    assert (Hx : last (nonblank_lines text) = Some l) by (rewrite Hl; apply last_snoc).
    rewrite (explain_tiers_search text lang l (nonblank_text _ Hne) Hx).
    apply find_none in Hc. rewrite Hc.
    replace (List.find (exception_marker lang text) (rev (nonblank_lines text)))
      with (@None str); [reflexivity|].
    symmetry. apply find_none. apply List.Forall_forall. intros y Hy.
    rewrite <- in_rev in Hy. unfold unmarked in Hm. rewrite List.Forall_forall in Hm.
    now apply Hm.
Qed.

(** C7, as first stated, fails on a text that is one space: the text is
    not empty, yet the answer is neither a summary of one of its lines nor
    a labelled line; it is the second fixed sentence. *)
Lemma explain_blank_text_is_no_tier :
  explain (lit " ") Java
    = lit "Java produced output on stderr but no clear message to summarize."
  /\ ~ two_case_output (lit " ") Java (explain (lit " ") Java).
Proof.
  split; [reflexivity|].
  intros [[Ht _]|[_ (l & Hl & _)]]; [discriminate|].
  exact Hl.
Qed.

End ExplainFacts.

(** ** The runners *)

Section RunnerFacts.
Import Runner RunnerSpec.
Context `{CharTable}.

Lemma launches_app l1 l2 : launches (l1 ++ l2) = launches l1 ++ launches l2.
Proof.
  induction l1 as [|ev l1 IH]; simpl; [reflexivity|].
  destruct ev; simpl; now rewrite IH.
Qed.

Lemma kills_app l1 l2 : kills (l1 ++ l2) = kills l1 ++ kills l2.
Proof.
  induction l1 as [|ev l1 IH]; simpl; [reflexivity|].
  destruct ev; simpl; now rewrite IH.
Qed.


(** Without the toolchain the Java runner answers at once and touches
    nothing. *)
Lemma run_java_realtime_missing E code timeout w :
  missing (which E (lit "javac")) = true \/ missing (which E (lit "java")) = true ->
  run_java_realtime E code timeout w
    = (Return ((-3)%Z, [], lit "javac or java executable not found on PATH"), w).
Proof.
  intros Hm. unfold run_java_realtime.
  replace (missing (which E (lit "javac")) || missing (which E (lit "java"))) with true;
    [reflexivity|].
  symmetry. apply orb_true_iff. exact Hm.
Qed.

(** C4.  When neither [javac] nor [java] is found on the path, the Java
    runner returns exit code -3 at once: the file system and the record of
    what was created, written and launched are what they were. *)
Theorem run_java_realtime_no_toolchain E code timeout w :
  which E (lit "javac") = None -> which E (lit "java") = None ->
  exists out err,
    run_java_realtime E code timeout w = (Return ((-3)%Z, out, err), w).
Proof.
  intros Hc _. eexists _, _. apply run_java_realtime_missing.
  left. now rewrite Hc.
Qed.

(** *** The operations, case by case *)

Lemma write_file_ok E path content w :
  write_fault E = None ->
  Os.write_file E path content w
    = (Return tt, {| files := <[path := File content]> (files w);
                     log := log w ++ [Wrote path content] |}).
Proof. intros Hw. unfold Os.write_file. rewrite Hw. reflexivity. Qed.

Lemma write_file_fault E path content w text :
  write_fault E = Some text ->
  Os.write_file E path content w = (Raise (Exception text), w).
Proof. intros Hw. unfold Os.write_file. rewrite Hw. reflexivity. Qed.

Lemma subprocess_run_failed E argv timeout w text :
  spawn E argv = Failed text ->
  Os.subprocess_run E argv timeout w
    = (Raise (Exception text),
       {| files := files w; log := log w ++ [Spawned argv timeout] |}).
Proof. intros Hs. unfold Os.subprocess_run, bind, emit. rewrite Hs. reflexivity. Qed.

Lemma subprocess_run_completed E argv timeout w c :
  spawn E argv = Launched c -> (duration c <= timeout)%Z ->
  Os.subprocess_run E argv timeout w
    = (Return (completed c),
       {| files := foldl leave (files w) (leaves c);
          log := log w ++ [Spawned argv timeout] |}).
Proof.
  intros Hs Hd. unfold Os.subprocess_run, bind, emit, update_files. rewrite Hs.
  cbn [files log]. apply Z.ltb_ge in Hd. rewrite Hd. reflexivity.
Qed.

Lemma subprocess_run_timeout E argv timeout w c :
  spawn E argv = Launched c -> (timeout < duration c)%Z ->
  Os.subprocess_run E argv timeout w
    = (Raise (TimeoutExpired (buffered c) (timeout_text c)),
       {| files := foldl leave (files w) (leaves c);
          log := (log w ++ [Spawned argv timeout]) ++ [Killed argv] |}).
Proof.
  intros Hs Hd. unfold Os.subprocess_run, bind, emit, update_files. rewrite Hs.
  cbn [files log]. apply Z.ltb_lt in Hd. rewrite Hd. reflexivity.
Qed.



(** *** The cleanup never raises *)

Lemma quietly_remove_returns E path w :
  exists w', quietly (Os.remove E path) w = (Return tt, w')
    /\ launches (log w') = launches (log w) /\ kills (log w') = kills (log w).
Proof.
  unfold quietly, try_except, Os.remove, bind, get_files, update_files, emit, raise, ret.
  destruct (files w !! path) as [[content|]|]; destruct (remove_fault E);
    cbn [is_exception files log]; eexists; (split; [reflexivity|]);
    cbn [log]; rewrite ?launches_app, ?kills_app; simpl; rewrite ?app_nil_r; auto.
Qed.

Lemma quietly_rmtree_returns E path w :
  exists w', quietly (Os.rmtree E path) w = (Return tt, w')
    /\ launches (log w') = launches (log w) /\ kills (log w') = kills (log w).
Proof.
  unfold quietly, try_except, Os.rmtree, bind, get_files, update_files, emit, raise, ret.
  destruct (files w !! path) as [[content|]|]; destruct (remove_fault E);
    cbn [is_exception files log]; eexists; (split; [reflexivity|]);
    cbn [log]; rewrite ?launches_app, ?kills_app; simpl; rewrite ?app_nil_r; auto.
Qed.


Lemma quietly_rmtree_ok E path w :
  remove_fault E = None -> files w !! path = Some Dir ->
  quietly (Os.rmtree E path) w
    = (Return tt,
       {| files := filter (fun kv => negb (in_tree path kv.1)) (files w);
          log := log w ++ [Removed path] |}).
Proof.
  intros Hr Hp.
  unfold quietly, try_except, Os.rmtree, bind, get_files, update_files, emit.
  rewrite Hp, Hr. reflexivity.
Qed.



(** *** The guarded block of the Java runner, scenario by scenario *)

Section JavaScenarios.
Variables (E : env) (code : str) (timeout : Z).
Variables (javac java_exec : option str) (class_name tmpdir : str).

Let file := join tmpdir (class_name ++ lit ".java").
Let source := java_source_of code.
Let compile := [default [] javac; file].
Let launch := [default [] java_exec; lit "-cp"; tmpdir; class_name].
Let guarded := try_except
                 (java_try E code timeout javac java_exec class_name tmpdir) handlers.
Let written (w : world) : world :=
  {| files := <[file := File source]> (files w); log := log w ++ [Wrote file source] |}.

Lemma java_write_fault w text :
  write_fault E = Some text ->
  guarded w = (Return ((-2)%Z, [], text), w).
Proof.
  intros Hw. unfold guarded, try_except, java_try, bind.
  rewrite (write_file_fault _ _ _ _ _ Hw). reflexivity.
Qed.

Lemma java_compile_failed w text :
  write_fault E = None -> spawn E compile = Failed text ->
  guarded w
    = (Return ((-2)%Z, [], text),
       {| files := files (written w);
          log := log (written w) ++ [Spawned compile timeout] |}).
Proof.
  intros Hw Hs. unfold guarded, try_except, java_try, bind.
  rewrite (write_file_ok _ _ _ _ Hw), (subprocess_run_failed _ _ _ _ _ Hs).
  reflexivity.
Qed.

Lemma java_compile_timeout w c :
  write_fault E = None -> spawn E compile = Launched c -> (timeout < duration c)%Z ->
  guarded w
    = (Return (timed_out c),
       {| files := foldl leave (files (written w)) (leaves c);
          log := (log (written w) ++ [Spawned compile timeout]) ++ [Killed compile] |}).
Proof.
  intros Hw Hs Hd. unfold guarded, try_except, java_try, bind.
  rewrite (write_file_ok _ _ _ _ Hw), (subprocess_run_timeout _ _ _ _ _ Hs Hd).
  reflexivity.
Qed.

Lemma java_compile_rejected w c :
  write_fault E = None -> spawn E compile = Launched c -> (duration c <= timeout)%Z ->
  returncode c <> 0%Z ->
  guarded w
    = (Return (completed c),
       {| files := foldl leave (files (written w)) (leaves c);
          log := log (written w) ++ [Spawned compile timeout] |}).
Proof.
  intros Hw Hs Hd Hr. unfold guarded, try_except, java_try, bind.
  rewrite (write_file_ok _ _ _ _ Hw), (subprocess_run_completed _ _ _ _ _ Hs Hd).
  unfold completed. cbn [fst snd]. apply Z.eqb_neq in Hr. rewrite Hr. reflexivity.
Qed.

Let compiled (w : world) (c : child) : world :=
  {| files := foldl leave (files (written w)) (leaves c);
     log := log (written w) ++ [Spawned compile timeout] |}.

Lemma java_run_failed w c text :
  write_fault E = None -> spawn E compile = Launched c -> (duration c <= timeout)%Z ->
  returncode c = 0%Z -> spawn E launch = Failed text ->
  guarded w
    = (Return ((-2)%Z, [], text),
       {| files := files (compiled w c);
          log := log (compiled w c) ++ [Spawned launch timeout] |}).
Proof.
  intros Hw Hs Hd Hr Hl. unfold guarded, try_except, java_try, bind.
  rewrite (write_file_ok _ _ _ _ Hw), (subprocess_run_completed _ _ _ _ _ Hs Hd).
  unfold completed. cbn [fst snd]. rewrite Hr. cbn [Z.eqb negb].
  fold launch. rewrite (subprocess_run_failed _ _ _ _ _ Hl). reflexivity.
Qed.

Lemma java_run_timeout w c d :
  write_fault E = None -> spawn E compile = Launched c -> (duration c <= timeout)%Z ->
  returncode c = 0%Z -> spawn E launch = Launched d -> (timeout < duration d)%Z ->
  guarded w
    = (Return (timed_out d),
       {| files := foldl leave (files (compiled w c)) (leaves d);
          log := (log (compiled w c) ++ [Spawned launch timeout]) ++ [Killed launch] |}).
Proof.
  intros Hw Hs Hd Hr Hl Ht. unfold guarded, try_except, java_try, bind.
  rewrite (write_file_ok _ _ _ _ Hw), (subprocess_run_completed _ _ _ _ _ Hs Hd).
  unfold completed. cbn [fst snd]. rewrite Hr. cbn [Z.eqb negb].
  fold launch. rewrite (subprocess_run_timeout _ _ _ _ _ Hl Ht). reflexivity.
Qed.

Lemma java_run_completed w c d :
  write_fault E = None -> spawn E compile = Launched c -> (duration c <= timeout)%Z ->
  returncode c = 0%Z -> spawn E launch = Launched d -> (duration d <= timeout)%Z ->
  guarded w
    = (Return (completed d),
       {| files := foldl leave (files (compiled w c)) (leaves d);
          log := log (compiled w c) ++ [Spawned launch timeout] |}).
Proof.
  intros Hw Hs Hd Hr Hl Ht. unfold guarded, try_except, java_try, bind.
  rewrite (write_file_ok _ _ _ _ Hw), (subprocess_run_completed _ _ _ _ _ Hs Hd).
  unfold completed at 1. cbn [fst snd]. rewrite Hr. cbn [Z.eqb negb].
  fold launch. rewrite (subprocess_run_completed _ _ _ _ _ Hl Ht). reflexivity.
Qed.


End JavaScenarios.

(** *** The guarded block of the Python runner *)

Lemma python_guarded_cases E path timeout w :
  let argv := [executable E; path] in
  let guarded := try_except (python_try E path timeout) handlers in
  match spawn E argv with
  | Failed text =>
      guarded w = (Return ((-2)%Z, [], text),
                   {| files := files w; log := log w ++ [Spawned argv timeout] |})
  | Launched c =>
      if (timeout <? duration c)%Z then
        guarded w = (Return (timed_out c),
                     {| files := foldl leave (files w) (leaves c);
                        log := (log w ++ [Spawned argv timeout]) ++ [Killed argv] |})
      else
        guarded w = (Return (completed c),
                     {| files := foldl leave (files w) (leaves c);
                        log := log w ++ [Spawned argv timeout] |})
  end.
Proof.
  intros argv guarded. unfold guarded, try_except, python_try, bind.
  destruct (spawn E argv) as [c|text] eqn:Hs.
  - destruct (timeout <? duration c)%Z eqn:Hd.
    + apply Z.ltb_lt in Hd. fold argv.
      rewrite (subprocess_run_timeout _ _ _ _ _ Hs Hd). reflexivity.
    + apply Z.ltb_ge in Hd. fold argv.
      rewrite (subprocess_run_completed _ _ _ _ _ Hs Hd). reflexivity.
  - fold argv. rewrite (subprocess_run_failed _ _ _ _ _ Hs). reflexivity.
Qed.

Lemma run_python_realtime_unfold E code timeout w :
  write_fault E = None ->
  run_python_realtime E code timeout w
    = try_finally
        (try_except (python_try E (python_path E) timeout) handlers)
        (quietly (Os.remove E (python_path E)))
        {| files := <[python_path E := File code]>
                      (<[python_path E := File []]> (files w));
           log := (log w ++ [Created (python_path E)])
                    ++ [Wrote (python_path E) code] |}.
Proof.
  intros Hw. unfold run_python_realtime, bind at 1 2, Os.mkstemp.
  unfold bind, update_files, emit, ret. cbn [files log].
  fold (python_path E). rewrite (write_file_ok _ _ _ _ Hw). reflexivity.
Qed.

Lemma run_java_realtime_unfold E code timeout w :
  toolchain_found E ->
  run_java_realtime E code timeout w
    = try_finally
        (try_except
           (java_try E code timeout (which E (lit "javac")) (which E (lit "java"))
              (class_name_of code) (temp_name E))
           handlers)
        (quietly (Os.rmtree E (temp_name E)))
        {| files := <[temp_name E := Dir]> (files w);
           log := log w ++ [Created (temp_name E)] |}.
Proof.
  intros [Hc Hj]. unfold run_java_realtime. rewrite Hc, Hj. cbn [orb].
  unfold bind at 1, Os.mkdtemp. unfold bind, update_files, emit, ret. reflexivity.
Qed.

(** A [try]/[finally] whose body returns and whose cleanup is quiet. *)
Lemma try_finally_returns {A} (body : M A) cleanup w r w1 w2 :
  body w = (Return r, w1) -> cleanup w1 = (Return tt, w2) ->
  try_finally body cleanup w = (Return r, w2).
Proof. intros Hb Hc. unfold try_finally. rewrite Hb, Hc. reflexivity. Qed.

(** C5.  When the compiler finishes with a non-zero exit code, the Java
    runner returns the compiler's exit code, output and error text as they
    are, and the compiler is the only process it has launched. *)
Theorem compile_failure_returned_verbatim E code timeout w c :
  toolchain_found E ->
  write_fault E = None ->
  spawn E (javac_argv E code) = Launched c ->
  (duration c <= timeout)%Z ->
  returncode c <> 0%Z ->
  (run_java_realtime E code timeout w).1 = Return (returncode c, stdout c, stderr c)
  /\ launches (log (run_java_realtime E code timeout w).2)
     = launches (log w) ++ [javac_argv E code].
Proof.
  intros Ht Hw Hs Hd Hr. rewrite (run_java_realtime_unfold _ _ _ _ Ht).
  match goal with |- context [try_finally _ _ ?w0] =>
    pose proof (java_compile_rejected E code timeout (which E (lit "javac"))
                  (which E (lit "java")) (class_name_of code) (temp_name E)
                  w0 c Hw Hs Hd Hr) as Hg
  end.
  match type of Hg with _ ?w0 = (_, ?w1) =>
    destruct (quietly_rmtree_returns E (temp_name E) w1) as (w2 & Hq & Hl & _);
    rewrite (try_finally_returns _ _ w0 _ w1 w2 Hg Hq)
  end.
  split; [reflexivity|]. cbn [fst snd]. rewrite Hl. cbn [log files].
  rewrite !launches_app. simpl. rewrite !app_nil_r. reflexivity.
Qed.

Ltac close_finally Hg returns :=
  match type of Hg with
  | _ ?w0 = (_, ?w1) =>
      let w2 := fresh "w2" in
      let Hq := fresh "Hq" in
      let Hl := fresh "Hl" in
      let Hk := fresh "Hk" in
      destruct (returns w1) as (w2 & Hq & Hl & Hk);
      rewrite (try_finally_returns _ _ w0 _ w1 w2 Hg Hq)
  end.


(** *** The name of the class *)






Lemma in_tree_removed (fs : gmap (list N) node) d p :
  in_tree d p = true ->
  filter (fun kv : list N * node => negb (in_tree d kv.1)) fs !! p = None.
Proof.
  intros Hp. apply map_lookup_filter_None. right. intros x _. cbn [fst].
  rewrite Hp. simpl. tauto.
Qed.



(** A failure while the Python runner writes the source is not part of
    its guarded block: the exception leaves the runner, and the file that
    [mkstemp] created stays. *)
Lemma run_python_realtime_write_fault E code timeout w text :
  write_fault E = Some text ->
  (run_python_realtime E code timeout w).1 = Raise (Exception text)
  /\ files (run_python_realtime E code timeout w).2 !! python_path E = Some (File []).
Proof.
  intros Hw. unfold run_python_realtime, bind at 1 2, Os.mkstemp.
  unfold bind, update_files, emit, ret. cbn [files log].
  fold (python_path E). rewrite (write_file_fault _ _ _ _ _ Hw).
  split; [reflexivity|]. cbn [snd files]. apply lookup_insert_eq.
Qed.

End RunnerFacts.

(** ** The patterns searched in Java source *)

Section PatternFacts.
Import Runner RunnerSpec PatternSpec.
Context `{CharTable}.

Lemma strip_prefix_Some x s r : strip_prefix x s = Some r <-> s = x ++ r.
Proof.
  revert s. induction x as [|a x IH]; intros s; simpl.
  - destruct s; split; congruence.
  - destruct s as [|b s]; [split; discriminate|].
    destruct (N.eqb_spec a b) as [->|Hne].
    + rewrite IH. split; congruence.
    + split; [discriminate|]. intros [= -> _]. contradiction.
Qed.

Lemma strip_prefix_app x r : strip_prefix x (x ++ r) = Some r.
Proof. now apply strip_prefix_Some. Qed.

Lemma take_while_app p w r :
  Forall (fun c => p c = true) w ->
  (forall c r', r = c :: r' -> p c = false) ->
  take_while p (w ++ r) = w /\ drop_while p (w ++ r) = r.
Proof.
  intros Hw Hr. induction Hw as [|a w Ha Hw IH]; simpl.
  - destruct r as [|c r']; [split; reflexivity|]. simpl.
    rewrite (Hr c r' eq_refl). split; reflexivity.
  - rewrite Ha. destruct IH as [-> ->]. split; reflexivity.
Qed.

Lemma ident_start_not_space c : is_ident_start c = true -> isspace c = false.
Proof. unfold is_ident_start, isspace. lia. Qed.

(** The matcher finds exactly the places that declare a public class. *)
Lemma match_public_class_spec s g :
  match_public_class s = Some g <-> declares_here s g.
Proof.
  split.
  - unfold match_public_class. intros Hm.
    destruct (strip_prefix (lit "public") s) as [s1|] eqn:H1; [|discriminate].
    destruct (take_while isspace s1) as [|a1 t1] eqn:Hw1; [discriminate|].
    destruct (strip_prefix (lit "class") (drop_while isspace s1)) as [s3|] eqn:H3;
      [|discriminate].
    destruct (take_while isspace s3) as [|a2 t2] eqn:Hw2; [discriminate|].
    destruct (drop_while isspace s3) as [|c s5] eqn:Hd3; [discriminate|].
    destruct (is_ident_start c) eqn:Hc; [|discriminate].
    injection Hm as <-.
    exists (a1 :: t1), (a2 :: t2), (drop_while is_ident_char s5).
    apply strip_prefix_Some in H1, H3.
    split; [|split; [|split; [|split]]].
    + rewrite H1. f_equal. rewrite <- Hw1.
      transitivity (take_while isspace s1 ++ drop_while isspace s1);
        [symmetry; apply take_drop_while|].
      f_equal. rewrite H3. f_equal. rewrite <- Hw2.
      transitivity (take_while isspace s3 ++ drop_while isspace s3);
        [symmetry; apply take_drop_while|].
      f_equal. rewrite Hd3. simpl. f_equal. symmetry. apply take_drop_while.
    + split; [discriminate|]. rewrite <- Hw1. apply take_while_all.
    + split; [discriminate|]. rewrite <- Hw2. apply take_while_all.
    + exists c, (take_while is_ident_char s5). repeat split; [assumption|].
      apply take_while_all.
    + intros d rest' Hrest. exact (drop_while_head _ _ _ _ Hrest).
  - intros (w1 & w2 & rest & -> & [Hn1 Hw1] & [Hn2 Hw2] & (c & g' & -> & Hc & Hg') & Hrest).
    unfold match_public_class. rewrite strip_prefix_app.
    destruct (take_while_app isspace w1 (lit "class" ++ w2 ++ (c :: g') ++ rest) Hw1)
      as [-> ->].
    { intros d r' [= <- _]. reflexivity. }
    destruct w1 as [|a1 t1]; [contradiction|].
    rewrite strip_prefix_app.
    destruct (take_while_app isspace w2 ((c :: g') ++ rest) Hw2) as [-> ->].
    { intros d r' [= <- _]. now apply ident_start_not_space. }
    destruct w2 as [|a2 t2]; [contradiction|].
    cbn [app]. rewrite Hc.
    destruct (take_while_app is_ident_char g' rest Hg' Hrest) as [-> _].
    reflexivity.
Qed.


(** The search answers with the first declaration, or with none when
    there is none. *)
Lemma search_public_class_spec code :
  match search_public_class code with
  | Some g => first_public_class code g
  | None => no_public_class code
  end.
Proof.
  induction code as [|a code IH]; cbn [search_public_class].
  - destruct (match_public_class []) as [g|] eqn:Hm.
    + exists [], []. split; [reflexivity|]. split; [now apply match_public_class_spec|].
      intros pre' s' g' _ Hlen. simpl in Hlen. lia.
    + intros pre s g Hs Hd. symmetry in Hs. apply app_eq_nil in Hs as [-> ->].
      apply match_public_class_spec in Hd. congruence.
  - destruct (match_public_class (a :: code)) as [g|] eqn:Hm.
    + exists [], (a :: code). split; [reflexivity|].
      split; [now apply match_public_class_spec|].
      intros pre' s' g' _ Hlen. simpl in Hlen. lia.
    + destruct (search_public_class code) as [g|].
      * destruct IH as (pre & s & -> & Hd & Hmin).
        exists (a :: pre), s. split; [reflexivity|]. split; [exact Hd|].
        intros pre' s' g' Hs Hlen Hd'. destruct pre' as [|b pre'].
        -- simpl in Hs. subst s'. apply match_public_class_spec in Hd'. congruence.
        -- injection Hs as <- Hs. apply (Hmin pre' s' g' Hs); [simpl in Hlen; lia|exact Hd'].
      * intros pre s g Hs Hd. destruct pre as [|b pre].
        -- simpl in Hs. subst s. apply match_public_class_spec in Hd. congruence.
        -- injection Hs as <- Hs. exact (IH pre s g Hs Hd).
Qed.



Lemma no_public_class_found code :
  no_public_class code -> search_public_class code = None.
Proof.
  intros Hn. pose proof (search_public_class_spec code) as Hs.
  destruct (search_public_class code) as [g0|]; [|reflexivity].
  destruct Hs as (pre & s & Hc & Hd & _). destruct (Hn pre s g0 Hc Hd).
Qed.

Lemma class_word_here_spec s :
  class_word_here s = true <->
  exists post, s = lit "class" ++ post
               /\ (forall c, head post = Some c -> is_word c = false).
Proof.
  unfold class_word_here. split.
  - destruct (strip_prefix (lit "class") s) as [post|] eqn:Hs; [|discriminate].
    apply strip_prefix_Some in Hs. intros Hb. exists post. split; [exact Hs|].
    destruct post as [|c post]; [discriminate|].
    intros d [= <-]. now apply negb_true_iff.
  - intros (post & -> & Hb). rewrite strip_prefix_app.
    destruct post as [|c post]; [reflexivity|].
    apply negb_true_iff, Hb. reflexivity.
Qed.

Lemma search_class_word_from_spec prev s :
  search_class_word_from prev s = true <->
  exists pre post,
    s = pre ++ lit "class" ++ post
    /\ match last pre with Some c => is_word c = false | None => prev = false end
    /\ (forall c, head post = Some c -> is_word c = false).
Proof.
  revert prev. induction s as [|a s IH]; intros prev; cbn [search_class_word_from].
  - rewrite orb_false_r, andb_true_iff, class_word_here_spec. split.
    + intros [_ (post & Hs & _)]. discriminate.
    + intros (pre & post & Hs & _). destruct pre; discriminate.
  - rewrite orb_true_iff, andb_true_iff, negb_true_iff, class_word_here_spec, IH. split.
    + intros [[Hp (post & Hs & Hb)]|(pre & post & -> & Hl & Hb)].
      * exists [], post. auto.
      * exists (a :: pre), post. split; [reflexivity|]. split; [|exact Hb].
        destruct pre as [|b pre]; [exact Hl|].
        change (last (a :: b :: pre)) with (last (b :: pre)).
        destruct (last (b :: pre)) eqn:Hlast; [exact Hl|].
        apply last_None in Hlast. discriminate.
    + intros (pre & post & Hs & Hl & Hb). destruct pre as [|b pre].
      * left. split; [exact Hl|]. exists post. auto.
      * right. injection Hs as <- ->. exists pre, post. split; [reflexivity|].
        split; [|exact Hb]. destruct pre as [|c pre]; [exact Hl|].
        change (last (a :: c :: pre)) with (last (c :: pre)) in Hl.
        destruct (last (c :: pre)) eqn:Hlast; [exact Hl|].
        apply last_None in Hlast. discriminate.
Qed.

Lemma search_class_word_spec code :
  search_class_word code = true <-> has_class_word code.
Proof.
  unfold search_class_word, has_class_word. rewrite search_class_word_from_spec.
  split; intros (pre & post & Hs & Hl & Hb); exists pre, post;
    (split; [exact Hs|]); (split; [|exact Hb]).
  - intros c Hc. now rewrite Hc in Hl.
  - destruct (last pre) as [c|]; [now apply Hl|reflexivity].
Qed.



End PatternFacts.

(** ** The relay *)

Section RelayFacts.
Import Relay RelaySpec.
Context {Ev Info : Type}.
Implicit Types (s : state Ev Info) (op : operation Ev Info) (sched : list actor).

Lemma run_snoc sched a s : run (sched ++ [a]) s = step a (run sched s).
Proof. unfold run. now rewrite foldl_snoc. Qed.

Lemma run_cons sched a s : run (a :: sched) s = run sched (step a s).
Proof. reflexivity. Qed.

Lemma invariant_start op : invariant op (start op).
Proof.
  unfold invariant, start, pending. cbn. repeat split; try reflexivity; discriminate.
Qed.

Lemma invariant_worker_step op s : invariant op s -> invariant op (worker_step s).
Proof.
  destruct s as [th pg eq rq ob]. unfold invariant, worker_step, pending, left_loop.
  cbn [thread page events_q result_q observed].
  intros (Hord & Htest & Hth).
  destruct th as [[|e rest] en|o| |].
  - destruct Hth as (-> & -> & Hloop).
    destruct (end_of op) as [info|text|] eqn:Hend; cbn [thread page events_q result_q observed];
      (split; [exact Hord|]); (split; [intros Hp; discriminate (Htest Hp)|]);
      rewrite ?Hend; cbn [outcome_of]; auto.
  - cbn [thread page events_q result_q observed].
    split; [now rewrite <- Hord, <- !app_assoc|].
    split; [intros Hp; discriminate (Htest Hp)|exact Hth].
  - cbn [thread page events_q result_q observed].
    split; [exact Hord|]. split; [intros Hp; discriminate (Htest Hp)|].
    destruct Hth as (Ho & -> & Hloop). exists o. auto.
  - cbn [thread page events_q result_q observed].
    split; [exact Hord|]. split; [reflexivity|].
    destruct Hth as (o & -> & Hrq & Hloop). auto.
  - cbn [thread page events_q result_q observed]. auto.
Qed.

Lemma invariant_poller_step op s : invariant op s -> invariant op (poller_step s).
Proof.
  destruct s as [th pg eq rq ob]. unfold invariant, poller_step, pending, left_loop, is_alive, goto.
  cbn [thread page events_q result_q observed].
  intros (Hord & Htest & Hth).
  destruct pg as [| | | | |r].
  - destruct th; cbn [thread page events_q result_q observed];
      (split; [exact Hord|]); (split; [try discriminate; reflexivity|]); exact Hth.
  - rewrite (Htest eq_refl) in Hord, Hth |- *.
    destruct rq as [|o rq]; cbn [thread page events_q result_q observed];
      (split; [exact Hord|]); (split; [discriminate|]).
    + destruct (outcome_of (end_of op)); [destruct Hth; discriminate|reflexivity].
    + destruct (outcome_of (end_of op)); [|discriminate]. exact Hth.
  - destruct eq as [|ev q]; cbn [thread page events_q result_q observed].
    + split; [exact Hord|]. split; [discriminate|]. exact Hth.
    + split; [now rewrite <- Hord, <- !app_assoc|]. split; [discriminate|]. exact Hth.
  - cbn [thread page events_q result_q observed].
    split; [exact Hord|]. split; [discriminate|]. exact Hth.
  - assert (Hrq : rq = [] /\ th = Exited /\ outcome_of (end_of op) = None).
    { destruct th; try (destruct Hth as (_ & _ & Hloop); discriminate).
      - destruct Hth as (o & _ & _ & Hloop). discriminate.
      - destruct (outcome_of (end_of op)); [destruct Hth; discriminate|]. auto. }
    destruct Hrq as (-> & -> & Hnone). cbn [thread page events_q result_q observed].
    split; [exact Hord|]. split; [discriminate|]. rewrite Hnone. reflexivity.
  - cbn [thread page events_q result_q observed]. auto.
Qed.

Lemma invariant_run op sched : invariant op (run sched (start op)).
Proof.
  induction sched as [|a sched IH] using rev_ind.
  - apply invariant_start.
  - rewrite run_snoc. destruct a; [now apply invariant_worker_step|now apply invariant_poller_step].
Qed.

(** Under every schedule: the page has handled a prefix of the ticks, in
    their order; the result queue holds nothing, or the one outcome of an
    extraction that is over; and the loop is only ever left when the
    thread died without an outcome. *)
Lemma relay_safety op sched :
  (exists later, ticks op = observed (run sched (start op)) ++ later)
  /\ (result_q (run sched (start op)) = []
      \/ exists o, outcome_of (end_of op) = Some o
                   /\ result_q (run sched (start op)) = [o]
                   /\ operation_over (run sched (start op)) = true)
  /\ (left_loop (run sched (start op)) = true -> outcome_of (end_of op) = None).
Proof.
  destruct (invariant_run op sched) as (Hord & _ & Hth).
  split; [eauto|]. unfold operation_over.
  destruct (thread (run sched (start op))) as [rest e|o| |].
  - destruct Hth as (_ & Hrq & Hloop). split; [auto|]. rewrite Hloop. discriminate.
  - destruct Hth as (_ & Hrq & Hloop). split; [auto|]. rewrite Hloop. discriminate.
  - destruct Hth as (o & Ho & Hrq & Hloop). split; [eauto|]. rewrite Hloop. discriminate.
  - destruct (outcome_of (end_of op)) as [o|].
    + destruct Hth as (Hrq & Hloop). split; [eauto|]. rewrite Hloop. discriminate.
    + auto.
Qed.

(** C1, where the code departs from it.  Let the extraction emit its
    ticks and then return or raise.  Under every schedule the page handles
    the ticks in their order, and the result queue holds at most the one
    outcome, put there after the extraction is over; but the page never
    leaves its loop, so it never reads that outcome. *)
Theorem polling_loop_never_reads_outcome (evs : list Ev) sched :
  (forall info : Info,
     let s := run sched (start {| ticks := evs; end_of := Returns info |}) in
     (exists later, evs = observed s ++ later)
     /\ (result_q s = [] \/ result_q s = [Finished info] /\ operation_over s = true)
     /\ left_loop s = false)
  /\ (forall text,
     let s := run sched (start {| ticks := evs; end_of := @Fails Info text |}) in
     (exists later, evs = observed s ++ later)
     /\ (result_q s = [] \/ result_q s = [Error text] /\ operation_over s = true)
     /\ left_loop s = false).
Proof.
  split; intros x s;
    match goal with s := run _ (start ?op) |- _ =>
      destruct (relay_safety op sched) as (Hord & Hrq & Hloop)
    end; fold s in Hord, Hrq, Hloop; cbn [ticks end_of outcome_of] in *;
    (split; [exact Hord|]); split.
  - destruct Hrq as [Hrq|(o & [= <-] & Hrq & Hover)]; auto.
  - destruct (left_loop s); [discriminate (Hloop eq_refl)|reflexivity].
  - destruct Hrq as [Hrq|(o & [= <-] & Hrq & Hover)]; auto.
  - destruct (left_loop s); [discriminate (Hloop eq_refl)|reflexivity].
Qed.

(** *** When the thread is dead *)

Lemma poller_step_thread s : thread (poller_step s) = thread s.
Proof.
  unfold poller_step, goto. destruct (page s); try reflexivity.
  - destruct (is_alive s); reflexivity.
  - destruct (result_q s); reflexivity.
  - destruct (events_q s); reflexivity.
  - destruct (result_q s); reflexivity.
Qed.

Lemma worker_step_dead s : thread s = Exited -> worker_step s = s.
Proof. intros Hs. unfold worker_step. rewrite Hs. reflexivity. Qed.

Lemma run_dead sched s :
  thread s = Exited -> run sched s = Nat.iter (page_turns sched) poller_step s.
Proof.
  revert s. induction sched as [|a sched IH]; intros s Hs; [reflexivity|].
  rewrite run_cons. destruct a; cbn [step page_turns].
  - rewrite (worker_step_dead _ Hs). now apply IH.
  - rewrite Nat.iter_succ_r. apply IH. now rewrite poller_step_thread.
Qed.

Lemma iter_done n s r : page s = Done r -> Nat.iter n poller_step s = s.
Proof.
  intros Hs. induction n as [|n IH]; [reflexivity|].
  rewrite Nat.iter_succ, IH. unfold poller_step. rewrite Hs. reflexivity.
Qed.

(** C3.  Let the page be at the test of its loop while the thread has
    ended and the result queue is empty.  Whatever the schedule, the page
    never shows success; and once it has moved three times it has left the
    loop and shows the error for a download that failed or was
    interrupted. *)
Theorem result_missing_surfaces_error s sched :
  page s = TestAlive -> thread s = Exited -> result_q s = [] ->
  (forall info, page (run sched s) <> Done (ShowSuccess info))
  /\ ((3 <= page_turns sched)%nat ->
      page (run sched s)
        = Done (ShowError (lit "Download failed or was interrupted."))).
Proof.
  intros Hp Ht Hq. rewrite (run_dead _ _ Ht).
  destruct s as [th pg eq rq ob]. cbn [page thread result_q] in Hp, Ht, Hq. subst.
  set (n := page_turns sched). clearbody n.
  assert (Hthree : forall k, page (Nat.iter (3 + k) poller_step
                     ({| thread := Exited; page := TestAlive; events_q := eq;
                         result_q := []; observed := ob |} : state Ev Info))
                   = Done (ShowError (lit "Download failed or was interrupted."))).
  { intros k. rewrite Nat.add_comm, Nat.iter_add.
    erewrite iter_done; reflexivity. }
  split.
  - intros info. destruct n as [|[|[|k]]]; try (cbn; discriminate).
    change (S (S (S k))) with (3 + k)%nat. rewrite (Hthree k). discriminate.
  - intros Hn. replace n with (3 + (n - 3))%nat by lia. apply Hthree.
Qed.

End RelayFacts.

(** ** The search for the downloaded file *)

Section FilesFacts.
Import Files FilesSpec.
Context `{CharTable}.
Variable BASE_DIR : str.

Lemma insert_desc_In x l y : In y (insert_desc x l) <-> x = y \/ In y l.
Proof.
  induction l as [|z l IH]; simpl; [tauto|].
  destruct (mtime x <? mtime z)%Z; simpl; [rewrite IH|]; tauto.
Qed.

Lemma sort_latest_first_In l y : In y (sort_latest_first l) <-> In y l.
Proof.
  induction l as [|x l IH]; simpl; [tauto|].
  rewrite insert_desc_In, IH. tauto.
Qed.

(** The head of the sorted listing is a latest entry. *)
Lemma insert_desc_head x l :
  (forall e, head l = Some e -> forall y, In y l -> (mtime y <= mtime e)%Z) ->
  forall e, head (insert_desc x l) = Some e ->
  forall y, In y (insert_desc x l) -> (mtime y <= mtime e)%Z.
Proof.
  destruct l as [|z l]; simpl.
  - intros _ e [= <-] y [<-|[]]. lia.
  - intros Hl. specialize (Hl z eq_refl).
    destruct (mtime x <? mtime z)%Z eqn:Hlt.
    + intros e [= <-] y Hy. simpl in Hy. rewrite insert_desc_In in Hy.
      apply Z.ltb_lt in Hlt. destruct Hy as [<-|[<-|Hy]]; [lia|lia|].
      apply Hl. now right.
    + intros e [= <-] y Hy. apply Z.ltb_ge in Hlt. simpl in Hy.
      destruct Hy as [<-|Hy]; [lia|]. specialize (Hl y Hy). lia.
Qed.

Lemma sort_latest_first_head l e :
  head (sort_latest_first l) = Some e -> latest_of l e.
Proof.
  intros He. split.
  - apply sort_latest_first_In. destruct (sort_latest_first l); [discriminate|].
    injection He as ->. now left.
  - intros y Hy. apply sort_latest_first_In in Hy. revert e He y Hy.
    induction l as [|x l IH]; simpl; [discriminate|].
    apply insert_desc_head. exact IH.
Qed.

Lemma sort_latest_first_nonempty l :
  l <> [] -> exists e, head (sort_latest_first l) = Some e.
Proof.
  intros Hl. destruct (sort_latest_first l) as [|e l'] eqn:Hs; [|eauto].
  destruct l as [|x l]; [contradiction|].
  assert (Hx : In x (sort_latest_first (x :: l))) by (apply sort_latest_first_In; now left).
  rewrite Hs in Hx. destruct Hx.
Qed.

(** The latest of a non-empty listing, as a path. *)
Lemma latest_path l :
  l <> [] ->
  exists e, latest_of l e
            /\ head (List.map (path_of BASE_DIR) (sort_latest_first l))
               = Some (path_of BASE_DIR e).
Proof.
  intros Hl. destruct (sort_latest_first_nonempty l Hl) as [e He].
  exists e. split; [now apply sort_latest_first_head|].
  destruct (sort_latest_first l); [discriminate|]. injection He as ->. reflexivity.
Qed.

Lemma download_dir_nonempty : DOWNLOAD_DIR BASE_DIR <> [].
Proof.
  unfold DOWNLOAD_DIR, join.
  replace (startswith (lit "downloads") (lit "/")) with false by reflexivity.
  destruct (last BASE_DIR) as [c|].
  - destruct (c =? 47); intros Heq; apply app_eq_nil in Heq as [_ Heq]; discriminate.
  - discriminate.
Qed.

Lemma path_of_nonempty e : truthy (path_of BASE_DIR e) = true.
Proof.
  unfold path_of, join. pose proof download_dir_nonempty as Hd.
  destruct (startswith (name e) (lit "/")) eqn:Hs.
  - destruct (name e); [discriminate|reflexivity].
  - destruct (last (DOWNLOAD_DIR BASE_DIR)) as [c|] eqn:Hl.
    + destruct (DOWNLOAD_DIR BASE_DIR); [contradiction|].
      destruct (c =? 47); reflexivity.
    + apply last_None in Hl. contradiction.
Qed.

Lemma insert_desc_at_path x l :
  insert_desc (at_path BASE_DIR x) (List.map (at_path BASE_DIR) l)
  = List.map (at_path BASE_DIR) (insert_desc x l).
Proof.
  induction l as [|y l IH]; [reflexivity|]. cbn [List.map insert_desc at_path mtime].
  destruct (mtime x <? mtime y)%Z; cbn [List.map]; [|reflexivity].
  f_equal. exact IH.
Qed.

Lemma sort_latest_first_at_path l :
  sort_latest_first (List.map (at_path BASE_DIR) l)
  = List.map (at_path BASE_DIR) (sort_latest_first l).
Proof.
  induction l as [|x l IH]; [reflexivity|]. cbn [List.map sort_latest_first foldr].
  fold (sort_latest_first (List.map (at_path BASE_DIR) l)). fold (sort_latest_first l).
  rewrite IH. apply insert_desc_at_path.
Qed.

(** The latest of the entries a search found in the listing, as the
    search returns it. *)
Lemma latest_found l :
  head (List.map name (sort_latest_first (List.map (at_path BASE_DIR) l)))
  = head (List.map (path_of BASE_DIR) (sort_latest_first l)).
Proof.
  rewrite sort_latest_first_at_path, List.map_map. reflexivity.
Qed.

Lemma empty_title_all title cands :
  truthy title = false -> List.filter (titled title) cands = cands.
Proof.
  destruct title; [|discriminate]. intros _. apply filter_fixed.
  intros e _. unfold titled, sanitize_filename. cbn.
  unfold contains. destruct (name e); reflexivity.
Qed.

Lemma exists_path_in d e :
  In e (listing d) -> exists_path BASE_DIR d (path_of BASE_DIR e) = true.
Proof.
  intros He. unfold exists_path. apply orb_true_iff. left.
  apply existsb_exists. exists e. split; [exact He|].
  unfold str_eqb. now apply bool_decide_eq_true_2.
Qed.

Section Plain.
Hypothesis plain_dir : has_magic (DOWNLOAD_DIR BASE_DIR) = false.
Hypothesis table : ascii_law.

(** A sanitized title stands for itself in a pattern. *)
Lemma sanitize_filename_literal title : literal (sanitize_filename title) = true.
Proof.
  assert (Hno : forall c, In c (sanitize_filename title) ->
                  c <> 42 /\ c <> 63 /\ c <> 91 /\ c <> 47).
  { intros c Hc. apply sanitize_filename_keeps in Hc. unfold keep in Hc.
    assert (Hsmall : c < 128 -> ascii_isalnum c || (c =? 32) || (c =? 45) || (c =? 95) = true).
    { intros Hlt. now rewrite <- (table c Hlt). }
    unfold ascii_isalnum in Hsmall. clear Hc.
    repeat split; intros ->; discriminate (Hsmall eq_refl). }
  unfold literal, has_magic. apply andb_true_iff. split; apply negb_true_iff;
    apply not_true_is_false; intros Hex; apply existsb_exists in Hex as (c & Hc & Hm);
    destruct (Hno c Hc) as (H42 & H63 & H91 & H47); lia.
Qed.

Lemma glob_all_plain d :
  glob_all BASE_DIR d = List.map (at_path BASE_DIR) (List.filter visible (listing d)).
Proof. unfold glob_all. rewrite plain_dir. reflexivity. Qed.

Lemma glob_containing_plain d title :
  glob_containing BASE_DIR d (sanitize_filename title)
  = List.map (at_path BASE_DIR)
      (List.filter (titled title) (List.filter visible (listing d))).
Proof.
  unfold glob_containing. rewrite plain_dir, sanitize_filename_literal. cbn [negb orb].
  f_equal. unfold titled, visible.
  induction (listing d) as [|e l IH]; simpl; [reflexivity|].
  destruct (hidden (name e)); simpl; [exact IH|].
  destruct (contains (sanitize_filename title) (name e)); simpl; now rewrite IH.
Qed.

Lemma find_latest_file_with_title_spec d title :
  match find_latest_file_with_title BASE_DIR d title with
  | Some p =>
      exists e, latest_of (List.filter (titled title) (List.filter visible (listing d))) e
                /\ p = path_of BASE_DIR e
  | None => List.filter (titled title) (List.filter visible (listing d)) = []
  end.
Proof.
  unfold find_latest_file_with_title. rewrite glob_containing_plain.
  destruct (List.filter (titled title) (List.filter visible (listing d)))
    as [|x l] eqn:Hf; [reflexivity|].
  cbn [List.map]. change (at_path BASE_DIR x :: List.map (at_path BASE_DIR) l)
    with (List.map (at_path BASE_DIR) (x :: l)).
  rewrite latest_found.
  destruct (latest_path (x :: l)) as (e & He & ->); [discriminate|]. eauto.
Qed.

Lemma resolve_steps d expected title :
  three_steps BASE_DIR (List.filter visible (listing d)) d expected title
    (resolve BASE_DIR d expected title).
Proof.
  unfold three_steps, resolve. rewrite glob_all_plain.
  assert (Hexp : match expected with
                 | Some p => if truthy p && exists_path BASE_DIR d p
                             then Some p else None
                 | None => None
                 end
                 = if expected_exists BASE_DIR d expected then expected else None).
  { unfold expected_exists. destruct expected as [p|]; reflexivity. }
  rewrite Hexp. clear Hexp.
  assert (Hall : forall x l, List.filter visible (listing d) = x :: l ->
            exists e, latest_of (x :: l) e
              /\ head (List.map name
                         (sort_latest_first (List.map (at_path BASE_DIR) (x :: l))))
                 = Some (path_of BASE_DIR e)).
  { intros x l _. rewrite latest_found. apply latest_path. discriminate. }
  destruct (expected_exists BASE_DIR d expected) eqn:Hex.
  - split; [|discriminate]. intros _.
    unfold expected_exists in Hex. destruct expected as [p|]; [|discriminate].
    apply andb_true_iff in Hex as [Hp _].
    do 2 (cbn [found negb andb]; rewrite ?Hp). reflexivity.
  - split; [discriminate|]. intros _. cbn [found negb andb].
    pose proof (find_latest_file_with_title_spec d title) as Hfind.
    destruct (truthy title) eqn:Ht.
    + destruct (find_latest_file_with_title BASE_DIR d title) as [p|].
      * destruct Hfind as (e & He & ->). cbn [found]. rewrite path_of_nonempty.
        cbn [negb]. split; [eauto|]. destruct He as [Hin _]. split.
        -- intros Hnil. rewrite Hnil in Hin. destruct Hin.
        -- intros Hnil. rewrite Hnil in Hin. destruct Hin.
      * cbn [found negb]. rewrite Hfind. split; [congruence|].
        destruct (List.filter visible (listing d)) as [|x l] eqn:Hg;
          [split; [congruence|reflexivity]|].
        split; [|discriminate]. intros _ _.
        destruct (Hall x l eq_refl) as (e & He & Hhead).
        cbn [List.map] in Hhead |- *. rewrite Hhead. eauto.
    + rewrite (empty_title_all _ _ Ht).
      destruct (List.filter visible (listing d)) as [|x l] eqn:Hg.
      * split; [congruence|]. split; [congruence|reflexivity].
      * split; [|split; discriminate]. intros _.
        destruct (Hall x l eq_refl) as (e & He & Hhead).
        cbn [List.map] in Hhead |- *. rewrite Hhead. eauto.
Qed.

End Plain.

(** C8, as the code has it.  For a download directory whose path holds
    no wildcard character the search tries, in order, the expected file
    name when that file exists, then the latest of the entries whose name
    contains the sanitized title, then the latest entry of all, where the
    two searches see only the entries whose name does not start with a
    dot; the first step that finds something decides.  When the expected
    name is that of no file outside the directory, a directory that holds
    nothing but [My Title.mp3] resolves to that file for the title
    [My Title], and an empty directory yields no match. *)
Theorem resolve_three_steps (d : disk) (expected : option str) (title : str) :
  has_magic (DOWNLOAD_DIR BASE_DIR) = false ->
  ascii_law ->
  three_steps BASE_DIR (List.filter visible (listing d)) d expected title
    (resolve BASE_DIR d expected title)
  /\ ((forall p, expected = Some p -> elsewhere d p = false) ->
      (forall t, listing d = [{| name := lit "My Title.mp3"; mtime := t |}] ->
         resolve BASE_DIR d expected (lit "My Title")
         = Some (join (DOWNLOAD_DIR BASE_DIR) (lit "My Title.mp3")))
      /\ (listing d = [] -> resolve BASE_DIR d expected title = None)).
Proof.
  intros Hplain Htable. split; [now apply resolve_steps|]. intros Hout.
  assert (Hex : forall p, expected = Some p ->
            expected_exists BASE_DIR d expected = true ->
            exists e, In e (listing d) /\ p = path_of BASE_DIR e).
  { intros p -> Hex. unfold expected_exists, exists_path in Hex.
    rewrite (Hout p eq_refl), orb_false_r in Hex.
    apply andb_true_iff in Hex as [_ Hex]. apply existsb_exists in Hex as (e & He & Heq).
    apply bool_decide_eq_true in Heq. eauto. }
  split.
  - intros t Hl. set (e := {| name := lit "My Title.mp3"; mtime := t |}) in *.
    change (join (DOWNLOAD_DIR BASE_DIR) (lit "My Title.mp3")) with (path_of BASE_DIR e).
    destruct (resolve_steps Hplain Htable d expected (lit "My Title")) as [Hone Hsearch].
    rewrite Hl in Hsearch. change (List.filter visible [e]) with [e] in Hsearch.
    destruct (expected_exists BASE_DIR d expected) eqn:Hexp.
    + rewrite (Hone eq_refl). destruct expected as [p|]; [|discriminate].
      destruct (Hex p eq_refl eq_refl) as (e' & He' & ->).
      rewrite Hl in He'. destruct He' as [<-|[]]. reflexivity.
    + destruct (Hsearch eq_refl) as (Htitled & Hall & _).
      assert (Hin : forall e', In e' (List.filter (titled (lit "My Title")) [e]) -> e' = e).
      { intros e' He'. apply filter_In in He' as [[<-|[]] _]. reflexivity. }
      destruct (List.filter (titled (lit "My Title")) [e]) as [|x l] eqn:Hf.
      * destruct (Hall eq_refl) as (e' & [[<-|[]] _] & ->); [discriminate|reflexivity].
      * destruct Htitled as (e' & [He' _] & ->); [discriminate|].
        now rewrite (Hin e' He').
  - intros Hl.
    destruct (resolve_steps Hplain Htable d expected title) as [Hone Hsearch].
    rewrite Hl in Hsearch. apply Hsearch; [|reflexivity].
    destruct (expected_exists BASE_DIR d expected) eqn:Hexp; [|reflexivity].
    destruct expected as [p|]; [|discriminate].
    destruct (Hex p eq_refl eq_refl) as (e' & He' & _). rewrite Hl in He'. destruct He'.
Qed.

End FilesFacts.

(** ** The statements at sample inputs *)

Section Samples.
Import Explain ExplainSpec Runner RunnerSpec PatternSpec Relay RelaySpec Files FilesSpec.
Import Samples.
#[local] Existing Instance ascii_table.

(** C8, as first stated, fails in four ways.  On a directory whose only
    entry is [.cache], that entry is the latest file of the directory, yet
    the search finds nothing.  On a directory that holds [My Title.mp3]
    and a later file whose name contains the title, the search answers
    with the later file.  When the path of the directory holds a bracket,
    it is read as part of the pattern, and [My Title.mp3] is not found on
    a disk without a directory [/srv/app1].  And on an empty directory the
    search answers with the expected file when that file exists
    elsewhere. *)
Lemma resolve_not_as_first_stated :
  let cache := only [{| name := lit ".cache"; mtime := 5 |}] in
  let two := only [{| name := lit "My Title.mp3"; mtime := 3 |};
                   {| name := lit "My Title (live).mp3"; mtime := 7 |}] in
  let one := only [{| name := lit "My Title.mp3"; mtime := 3 |}] in
  (resolve app_dir cache None (lit "x") = None
   /\ ~ three_steps app_dir (listing cache) cache None (lit "x")
          (resolve app_dir cache None (lit "x")))
  /\ resolve app_dir two None (lit "My Title")
     = Some (lit "/srv/app/downloads/My Title (live).mp3")
  /\ resolve bracket_dir one None (lit "My Title") = None
  /\ resolve app_dir elsewhere_only (Some (lit "/tmp/My Title.mp3")) (lit "My Title")
     = Some (lit "/tmp/My Title.mp3").
Proof.
  intros cache two one. split; [|repeat split; reflexivity].
  assert (Hr : resolve app_dir cache None (lit "x") = None) by reflexivity.
  split; [exact Hr|]. rewrite Hr. intros [_ Hsteps].
  destruct (Hsteps eq_refl) as (Htitled & Hall & _).
  destruct (List.filter (titled (lit "x")) (listing cache)) as [|x l] eqn:Hf.
  - destruct (Hall eq_refl) as (e & _ & He); [discriminate|discriminate].
  - destruct Htitled as (e & _ & He); [discriminate|discriminate].
Qed.


(** C1 at a sample run: the extraction emits two ticks and returns; the
    thread runs to its end and the page then polls forty times.  Both
    ticks have been handled, the outcome lies on the result queue, and
    the page is still inside its loop. *)
Example relay_keeps_polling_after_success :
  let s := run (repeat Thread 5 ++ repeat Page 40)
             (start {| ticks := [1%nat; 2%nat]; end_of := Returns 7%nat |}) in
  observed s = [1%nat; 2%nat] /\ result_q s = [Finished 7%nat]
  /\ thread s = Exited /\ left_loop s = false.
Proof. vm_compute. repeat split. Qed.

Lemma sanitize_filename_spec_witness :
  sanitize_filename (lit "My: Title?  ") = lit "My Title"
  /\ sanitize_filename (lit "My Title") = lit "My Title".
Proof.
  destruct (sanitize_filename_spec (lit "My: Title?  ")) as (_ & _ & Hidem).
  split; [reflexivity|exact Hidem].
Defined.

Lemma explain_first_match_wins_witness :
  nonblank_lines (lit "Main.java:3: error: ';' expected")
    = [] ++ lit "Main.java:3: error: ';' expected" :: []
  /\ compiler_marker Java (lit "Main.java:3: error: ';' expected") = true
  /\ explain (lit "Main.java:3: error: ';' expected") Java
     = compile_summary (lit "Main.java:3: error: ';' expected").
Proof.
  split; [reflexivity|]. split; [reflexivity|].
  destruct (explain_first_match_wins (lit "Main.java:3: error: ';' expected") Java)
    as (_ & _ & _ & Hcompile & _).
  apply (Hcompile [] _ []); [reflexivity|reflexivity|constructor].
Defined.

Lemma run_java_realtime_no_toolchain_witness :
  which bare (lit "javac") = None /\ which bare (lit "java") = None
  /\ exists out err,
       run_java_realtime bare (lit "int x = 1;") 10 empty_world
       = (Return ((-3)%Z, out, err), empty_world).
Proof.
  split; [reflexivity|]. split; [reflexivity|].
  apply (run_java_realtime_no_toolchain bare); reflexivity.
Defined.

Lemma toolchain_on_host c fault : toolchain_found (host c fault).
Proof. split; reflexivity. Qed.

Lemma compile_failure_returned_verbatim_witness :
  let E := host rejecting None in
  (duration rejecting <= 10)%Z /\ returncode rejecting <> 0%Z
  /\ (run_java_realtime E (lit "int x = 1") 10 empty_world).1
     = Return (1%Z, [], lit "Main.java:3: error: ';' expected")
  /\ launches (log (run_java_realtime E (lit "int x = 1") 10 empty_world).2)
     = launches (log empty_world) ++ [javac_argv E (lit "int x = 1")].
Proof.
  intros E. split; [cbn; lia|]. split; [discriminate|].
  apply (compile_failure_returned_verbatim E (lit "int x = 1") 10
           empty_world rejecting).
  - apply toolchain_on_host.
  - reflexivity.
  - reflexivity.
  - cbn. lia.
  - discriminate.
Defined.




Lemma result_missing_surfaces_error_witness :
  let s := run [Thread] (start {| ticks := @nil nat; end_of := @Dies nat |}) in
  page s = TestAlive /\ thread s = Exited /\ result_q s = []
  /\ page (run [Page; Page; Page] s)
     = Done (ShowError (lit "Download failed or was interrupted.")).
Proof.
  intros s. split; [reflexivity|]. split; [reflexivity|]. split; [reflexivity|].
  destruct (result_missing_surfaces_error s [Page; Page; Page]) as [_ Hleft];
    [reflexivity|reflexivity|reflexivity|].
  apply Hleft. cbn. lia.
Defined.

Lemma ascii_table_law : ascii_law.
Proof. intros c _. reflexivity. Qed.

Lemma resolve_three_steps_witness :
  let mp3 := {| name := lit "My Title.mp3"; mtime := 3 |} in
  let webm := {| name := lit "My Title.webm"; mtime := 7 |} in
  let d := only [mp3; webm; {| name := lit ".cache"; mtime := 9 |}] in
  has_magic (DOWNLOAD_DIR app_dir) = false
  /\ ascii_law
  /\ expected_exists app_dir d None = false
  /\ List.filter (titled (lit "My Title")) (List.filter visible (listing d)) = [mp3; webm]
  /\ resolve app_dir d None (lit "My Title")
     = Some (lit "/srv/app/downloads/My Title.webm").
Proof.
  intros mp3 webm d.
  assert (Hf : List.filter (titled (lit "My Title")) (List.filter visible (listing d))
               = [mp3; webm]) by reflexivity.
  split; [reflexivity|]. split; [exact ascii_table_law|]. split; [reflexivity|].
  split; [exact Hf|].
  destruct (resolve_three_steps app_dir d None (lit "My Title") eq_refl ascii_table_law)
    as ([_ Hsearch] & _).
  destruct (Hsearch eq_refl) as (Htitled & _).
  destruct Htitled as (e & [He Hmax] & ->); [rewrite Hf; discriminate|].
  rewrite Hf in He, Hmax.
  destruct He as [<-|[<-|[]]]; [|reflexivity].
  specialize (Hmax webm (or_intror (or_introl eq_refl))). cbn in Hmax. lia.
Defined.

End Samples.

(** ** The static checks *)

Section ReviewFacts.
Import Review ReviewSpec Runner PatternSpec.

Lemma startswith_spec s x : startswith s x = true <-> exists post, s = x ++ post.
Proof.
  unfold startswith. destruct (strip_prefix x s) as [r|] eqn:Hs.
  - apply strip_prefix_Some in Hs. split; eauto.
  - split; [discriminate|]. intros [post Hp].
    apply strip_prefix_Some in Hp. congruence.
Qed.

Lemma contains_spec x s : contains x s = true <-> occurs x s.
Proof.
  unfold occurs. induction s as [|c s IH]; cbn [contains].
  - rewrite orb_false_r, startswith_spec. split.
    + intros [post Hp]. exists [], post. exact Hp.
    + intros (pre & post & Hs). destruct pre; [eauto|discriminate].
  - rewrite orb_true_iff, startswith_spec, IH. split.
    + intros [[post Hp]|(pre & post & ->)].
      * exists [], post. exact Hp.
      * exists (c :: pre), post. reflexivity.
    + intros (pre & post & Hs). destruct pre as [|d pre].
      * left. eauto.
      * right. injection Hs as <- ->. eauto.
Qed.

Lemma contains_inside x pre post : contains x (pre ++ x ++ post) = true.
Proof. apply contains_spec. exists pre, post. reflexivity. Qed.

Lemma match_gap_spec a b s :
  (forall c b', b = c :: b' -> isspace c = false) -> b <> [] ->
  match_gap a b s = true <->
  exists w post, s = a ++ w ++ b ++ post /\ Forall (fun c => isspace c = true) w.
Proof.
  intros Hb Hne. unfold match_gap. split.
  - destruct (strip_prefix a s) as [r|] eqn:Hs; [|discriminate].
    apply strip_prefix_Some in Hs. rewrite startswith_spec. intros [post Hp].
    exists (take_while isspace r), post. split; [|apply take_while_all].
    rewrite Hs, <- Hp, take_drop_while. reflexivity.
  - intros (w & post & -> & Hw). rewrite strip_prefix_app.
    destruct (take_while_app isspace w (b ++ post) Hw) as [_ ->].
    + destruct b as [|c b']; [contradiction|]. intros d r' [= <- _]. now apply (Hb c b').
    + apply startswith_spec. eauto.
Qed.

Lemma search_gap_spec a b s :
  (forall c b', b = c :: b' -> isspace c = false) -> b <> [] ->
  search_gap a b s = true <-> occurs_with_gap a b s.
Proof.
  intros Hb Hne. unfold occurs_with_gap. induction s as [|c s IH]; cbn [search_gap].
  - rewrite orb_false_r, (match_gap_spec a b [] Hb Hne). split.
    + intros (w & post & Hs & Hw). exists [], w, post. auto.
    + intros (pre & w & post & Hs & Hw). destruct pre; [eauto|discriminate].
  - rewrite orb_true_iff, (match_gap_spec a b (c :: s) Hb Hne), IH. split.
    + intros [(w & post & Hs & Hw)|(pre & w & post & -> & Hw)].
      * exists [], w, post. auto.
      * exists (c :: pre), w, post. auto.
    + intros (pre & w & post & Hs & Hw). destruct pre as [|d pre].
      * left. eauto.
      * right. injection Hs as <- ->. eauto.
Qed.

(** The Java check reports each of its three findings exactly when its
    pattern stands in the code, and reports them in a fixed order, each at
    most once. *)
Theorem detect_java_issues_reports (code : str) :
  (In debug_print_issue (detect_java_issues code)
   <-> occurs (lit "System.out.println") code)
  /\ (In generic_catch_issue (detect_java_issues code)
      <-> occurs_with_gap (lit "catch") (lit "(Exception") code)
  /\ (In string_equality_issue (detect_java_issues code)
      <-> occurs_with_gap (lit "==") [34] code)
  /\ sublist (detect_java_issues code)
       [debug_print_issue; generic_catch_issue; string_equality_issue].
Proof.
  rewrite <- contains_spec.
  rewrite <- (search_gap_spec (lit "catch") (lit "(Exception"));
    [|intros c b' [= <- _]; reflexivity|discriminate].
  rewrite <- (search_gap_spec (lit "==") [34]);
    [|intros c b' [= <- _]; reflexivity|discriminate].
  unfold detect_java_issues.
  destruct (contains (lit "System.out.println") code);
    destruct (search_gap (lit "catch") (lit "(Exception") code);
    destruct (search_gap (lit "==") [34] code); cbn [app In];
    (repeat split; try (intros; discriminate); try tauto;
     try (intros [Hx|Hx]; try discriminate Hx; try tauto;
          destruct Hx as [Hx|Hx]; try discriminate Hx; try tauto;
          destruct Hx as [Hx|Hx]; try discriminate Hx; tauto));
    repeat first [apply sublist_nil | apply sublist_skip | apply sublist_cons].
Qed.

Lemma explain_issues_nl_map issues language :
  explain_issues_nl issues language = List.map (explain_issue language) issues.
Proof.
  unfold explain_issues_nl.
  assert (Hacc : forall acc,
            foldl (fun explanations issue => explanations ++ [explain_issue language issue])
                  acc issues
            = acc ++ List.map (explain_issue language) issues).
  { induction issues as [|i issues IH]; intros acc; simpl.
    - now rewrite app_nil_r.
    - rewrite IH, <- app_assoc. reflexivity. }
  apply Hacc.
Qed.

(** The explanations follow the issues one for one and in their order,
    and each explanation names the language and quotes its issue. *)
Theorem explain_issues_nl_quotes (issues : list str) (language : str) :
  length (explain_issues_nl issues language) = length issues
  /\ forall i issue, nth_error issues i = Some issue ->
       exists e, nth_error (explain_issues_nl issues language) i = Some e
                 /\ occurs (lit "'" ++ issue ++ lit "'") e
                 /\ occurs (lit "In your " ++ language ++ lit " code") e.
Proof.
  rewrite explain_issues_nl_map. split; [apply length_map|].
  intros i issue Hi. exists (explain_issue language issue).
  split; [now apply map_nth_error|]. unfold explain_issue. split.
  - exists (lit "In your " ++ language ++ lit " code, the issue detected is: "),
      (lit ". This can lead to runtime errors, security risks, or maintenance problems. It is recommended to refactor this part following best practices.").
    rewrite <- !app_assoc. reflexivity.
  - exists [], (lit ", the issue detected is: '" ++ issue
      ++ lit "'. This can lead to runtime errors, security risks, or maintenance problems. It is recommended to refactor this part following best practices.").
    rewrite <- !app_assoc. reflexivity.
Qed.

Section Wrapping.
Context `{CharTable}.

Lemma java_source_of_wrapped code :
  no_public_class code -> ~ has_class_word code -> java_source_of code = wrapped code.
Proof.
  intros Hn Hw. unfold java_source_of, class_name_of.
  rewrite (no_public_class_found _ Hn).
  destruct (search_class_word code) eqn:Hs; [|reflexivity].
  destruct Hw. now apply search_class_word_spec.
Qed.

(** For a language other than Python the page warns of a missing main
    method exactly when the text [public static void main] is absent, and
    of a null pointer exactly when that word is present.  The source the
    Java runner builds around a class-less snippet never draws the first
    warning. *)
Theorem runtime_error_detection_java compile_error (code language : str) :
  language <> lit "Python" ->
  (In main_missing_error (runtime_error_detection compile_error code language)
   <-> ~ occurs (lit "public static void main") code)
  /\ (In null_pointer_error (runtime_error_detection compile_error code language)
      <-> occurs (lit "NullPointerException") code)
  /\ (no_public_class code -> ~ has_class_word code ->
      ~ In main_missing_error
          (runtime_error_detection compile_error (java_source_of code) language)).
Proof.
  intros Hlang.
  assert (Hdetect : forall text,
            runtime_error_detection compile_error text language
            = (if negb (contains (lit "public static void main") text)
               then [main_missing_error] else [])
              ++ (if contains (lit "NullPointerException") text
                  then [null_pointer_error] else [])).
  { intros text. unfold runtime_error_detection, str_eqb.
    rewrite bool_decide_eq_false_2 by exact Hlang.
    destruct (contains (lit "public static void main") text);
      destruct (contains (lit "NullPointerException") text); reflexivity. }
  assert (Hmain : forall text,
            In main_missing_error (runtime_error_detection compile_error text language)
            <-> contains (lit "public static void main") text = false).
  { intros text. rewrite Hdetect.
    destruct (contains (lit "public static void main") text);
      destruct (contains (lit "NullPointerException") text); cbn [negb app In];
      split; try discriminate; try tauto;
      intros [Hx|Hx]; try discriminate Hx; try tauto;
      destruct Hx as [Hx|Hx]; try discriminate Hx; tauto. }
  split; [|split].
  - rewrite Hmain, <- contains_spec. destruct (contains _ code); split; congruence.
  - rewrite Hdetect, <- contains_spec.
    destruct (contains (lit "public static void main") code);
      destruct (contains (lit "NullPointerException") code); cbn [negb app In];
      split; try discriminate; try tauto;
      intros [Hx|Hx]; try discriminate Hx; try tauto;
      destruct Hx as [Hx|Hx]; try discriminate Hx; tauto.
  - intros Hn Hw. rewrite Hmain.
    rewrite (java_source_of_wrapped code Hn Hw). unfold wrapped.
    replace (lit " public static void main(String[] args) {")
      with (lit " " ++ lit "public static void main" ++ lit "(String[] args) {")
      by reflexivity.
    rewrite <- !app_assoc, !app_assoc, <- !app_assoc.
    intros Hc. 
    assert (Ht : contains (lit "public static void main")
                   ((lit "public class Main {" ++ [10] ++ lit " ")
                    ++ lit "public static void main"
                    ++ (lit "(String[] args) {" ++ [10] ++ code ++ [10] ++ lit "}"
                        ++ [10] ++ lit "}")) = true) by apply contains_inside.
    rewrite <- !app_assoc in Ht. cbn [app] in Ht, Hc. congruence.
Qed.

End Wrapping.

End ReviewFacts.

(** ** The download options *)

Section OptionsFacts.
Import Options.
Variable BASE_DIR : str.

(** With ffmpeg on the path the options pass through untouched and no
    warning is shown.  Without it, and for a choice of the selector, the
    adjusted options have no post-processing step, every key other than
    [format] and [postprocessors] keeps its value, one warning is shown, and
    adjusting a second time changes nothing. *)
Theorem adjust_opts_for_ffmpeg_frame (which_ffmpeg : option str)
    (opts : gmap string value) (choice : str) :
  (is_Some which_ffmpeg -> adjust_opts_for_ffmpeg which_ffmpeg opts choice = (opts, None))
  /\ (which_ffmpeg = None -> In choice choices ->
      (adjust_opts_for_ffmpeg which_ffmpeg opts choice).1 !! "postprocessors" = None
      /\ (forall k, k <> "format"%string -> k <> "postprocessors"%string ->
          (adjust_opts_for_ffmpeg which_ffmpeg opts choice).1 !! k = opts !! k)
      /\ is_Some (adjust_opts_for_ffmpeg which_ffmpeg opts choice).2)
  /\ (adjust_opts_for_ffmpeg which_ffmpeg
        (adjust_opts_for_ffmpeg which_ffmpeg opts choice).1 choice).1
     = (adjust_opts_for_ffmpeg which_ffmpeg opts choice).1.
Proof.
  split; [|split].
  - intros [p ->]. reflexivity.
  - intros -> Hc. unfold adjust_opts_for_ffmpeg. cbn [is_Some_b].
    destruct (str_eqb choice best_choice || str_eqb choice mp4_choice) eqn:Hv.
    + cbn [fst snd]. split; [apply lookup_delete_eq|]. split; [|eauto].
      intros k Hf Hp. rewrite lookup_delete_ne, lookup_insert_ne; auto.
    + destruct (str_eqb choice mp3_choice) eqn:Ha.
      * cbn [fst snd]. split; [apply lookup_delete_eq|]. split; [|eauto].
        intros k Hf Hp. rewrite lookup_delete_ne; auto.
      * exfalso. apply orb_false_iff in Hv as [Hb Hm]. unfold str_eqb in *.
        apply bool_decide_eq_false in Hb, Hm, Ha.
        destruct Hc as [Hc|[Hc|[Hc|[]]]]; congruence.
  - unfold adjust_opts_for_ffmpeg. destruct which_ffmpeg as [p|]; cbn [is_Some_b]; [reflexivity|].
    destruct (str_eqb choice best_choice || str_eqb choice mp4_choice).
    + cbn [fst]. apply map_eq. intros k.
      destruct (decide (k = "postprocessors"%string)) as [->|Hp];
        [now rewrite !lookup_delete_eq|].
      rewrite !lookup_delete_ne by auto.
      destruct (decide (k = "format"%string)) as [->|Hf];
        [now rewrite !lookup_insert_eq|].
      rewrite !lookup_insert_ne by auto. rewrite lookup_delete_ne by auto.
      rewrite lookup_insert_ne by auto. reflexivity.
    + destruct (str_eqb choice mp3_choice); cbn [fst]; [|reflexivity].
      apply map_eq. intros k.
      destruct (decide (k = "postprocessors"%string)) as [->|Hp];
        [now rewrite !lookup_delete_eq|].
      now rewrite !lookup_delete_ne by auto.
Qed.

Lemma choice_cases choice :
  In choice choices ->
  choice = best_choice \/ choice = mp4_choice \/ choice = mp3_choice.
Proof. intros [Hc|[Hc|[Hc|[]]]]; auto. Qed.

(** For each choice of the selector the prepared options restrict file
    names, never expand a playlist and write below the download directory.
    They hold a post-processing step exactly for the audio choice with
    ffmpeg on the path, and without ffmpeg they never ask for a merge of two
    streams. *)
Theorem prepare_opts_by_choice (which_ffmpeg : option str) (choice : str) :
  In choice choices ->
  (prepare_opts BASE_DIR which_ffmpeg choice).1 !! "restrictfilenames" = Some (Flag true)
  /\ (prepare_opts BASE_DIR which_ffmpeg choice).1 !! "noplaylist" = Some (Flag true)
  /\ (prepare_opts BASE_DIR which_ffmpeg choice).1 !! "outtmpl"
     = Some (Str (join (Files.DOWNLOAD_DIR BASE_DIR) (lit "%(title)s.%(ext)s")))
  /\ (is_Some ((prepare_opts BASE_DIR which_ffmpeg choice).1 !! "postprocessors")
      <-> choice = mp3_choice /\ is_Some which_ffmpeg)
  /\ (which_ffmpeg = None ->
      asks_merge ((prepare_opts BASE_DIR which_ffmpeg choice).1 !! "format") = false).
Proof.
  intros Hc. apply choice_cases in Hc.
  destruct which_ffmpeg as [p|]; destruct Hc as [-> | [-> | ->]];
    (split; [reflexivity|]); (split; [reflexivity|]); (split; [reflexivity|]);
    (split; [|first [discriminate | reflexivity]]);
    (split; [intros [v Hv]; first [discriminate Hv | split; [reflexivity|eauto]]
            | intros [Hm Hw]; first [discriminate Hm | destruct Hw; discriminate | eexists; reflexivity]]).
Qed.

End OptionsFacts.

(** ** The runners, path by path *)

Section OutcomeFacts.
Import Runner RunnerSpec Outcomes.
Context `{CharTable}.

Ltac close_finally Hg returns :=
  match type of Hg with
  | _ ?w0 = (_, ?w1) =>
      let w2 := fresh "w2" in
      let Hq := fresh "Hq" in
      let Hl := fresh "Hl" in
      let Hk := fresh "Hk" in
      destruct (returns w1) as (w2 & Hq & Hl & Hk);
      rewrite (try_finally_returns _ _ w0 _ w1 w2 Hg Hq)
  end.

Lemma run_python_realtime_from_made E code timeout :
  run_python_realtime_from Made E code timeout = run_python_realtime E code timeout.
Proof. reflexivity. Qed.

Lemma run_java_realtime_from_made E code timeout :
  run_java_realtime_from Made E code timeout = run_java_realtime E code timeout.
Proof. reflexivity. Qed.

(** The ways out of the Python runner.  When [mkstemp] raises, the
    exception leaves the runner and nothing has been made or launched.
    Once the file is made and the source written, the runner returns: exit
    code -2 and the text of the exception when the call of the interpreter
    raises anything but the timeout (the interpreter cannot be started, its
    output cannot be decoded), the timeout result when the process
    outlives the timeout, and otherwise the exit code, output and error
    text of the process as they are.  It writes the code as given to its
    temporary file and calls the interpreter on that file, once, with the
    caller's timeout. *)
Theorem run_python_realtime_outcome E code timeout w :
  (forall text,
     run_python_realtime_from (NotMade text) E code timeout w
     = (Raise (Exception text), w))
  /\ (write_fault E = None ->
      exists r evs,
        (run_python_realtime_from Made E code timeout w).1 = Return r
        /\ python_outcome E timeout r
        /\ log (run_python_realtime_from Made E code timeout w).2
           = log w ++ Created (python_path E) :: Wrote (python_path E) code
               :: Spawned [executable E; python_path E] timeout :: evs
        /\ launches evs = []).
Proof.
  split; [reflexivity|].
  intros Hw. rewrite run_python_realtime_from_made.
  rewrite (run_python_realtime_unfold _ _ _ _ Hw).
  match goal with |- context [try_finally _ _ ?w0] =>
    pose proof (python_guarded_cases E (python_path E) timeout w0) as Hg
  end.
  cbv zeta in Hg.
  assert (Hlog : forall w1 w2 tail,
            quietly (Os.remove E (python_path E)) w1 = (Return tt, w2) ->
            log w1 = log w ++ Created (python_path E) :: Wrote (python_path E) code
                       :: Spawned [executable E; python_path E] timeout :: tail ->
            launches tail = [] ->
            exists evs, log w2 = log w ++ Created (python_path E)
                                   :: Wrote (python_path E) code
                                   :: Spawned [executable E; python_path E] timeout :: evs
                        /\ launches evs = []).
  { intros w1 w2 tail Hq Hl1 Ht. unfold quietly, try_except, Os.remove, bind, get_files,
      update_files, emit, raise, ret in Hq.
    destruct (files w1 !! python_path E) as [[content|]|]; destruct (remove_fault E);
      cbn [is_exception] in Hq; injection Hq as <-; cbn [log]; rewrite ?Hl1;
      try (exists tail; split; [reflexivity|exact Ht]).
    exists (tail ++ [Removed (python_path E)]). split.
    - rewrite <- app_assoc. reflexivity.
    - rewrite launches_app, Ht. reflexivity. }
  destruct (spawn E [executable E; python_path E]) as [c|text] eqn:Hs.
  - destruct (timeout <? duration c)%Z eqn:Hd.
    + close_finally Hg (quietly_remove_returns E (python_path E)).
      destruct (Hlog _ _ [Killed [executable E; python_path E]] Hq) as (evs & Hevs & Hno);
        [cbn [log]; now rewrite <- !app_assoc|reflexivity|].
      exists (timed_out c), evs. cbn [fst snd]. repeat split; try assumption.
      apply PyTimedOut; [exact Hs|now apply Z.ltb_lt].
    + close_finally Hg (quietly_remove_returns E (python_path E)).
      destruct (Hlog _ _ [] Hq) as (evs & Hevs & Hno);
        [cbn [log]; now rewrite <- !app_assoc|reflexivity|].
      exists (completed c), evs. cbn [fst snd]. repeat split; try assumption.
      apply PyCompleted; [exact Hs|now apply Z.ltb_ge].
  - close_finally Hg (quietly_remove_returns E (python_path E)).
    destruct (Hlog _ _ [] Hq) as (evs & Hevs & Hno);
      [cbn [log]; now rewrite <- !app_assoc|reflexivity|].
    exists ((-2)%Z, [], text), evs. cbn [fst snd]. repeat split; try assumption.
    now apply PyFailed.
Qed.

Ltac java_scenario E lemma :=
  match goal with |- context [try_finally _ _ ?w0] =>
    let Hg := fresh "Hg" in
    pose proof (lemma w0) as Hg;
    close_finally Hg (quietly_rmtree_returns E (temp_name E))
  end.

(** The ways out of the Java runner with the toolchain at hand.  When
    [mkdtemp] raises, the exception leaves the runner and nothing has been
    made or launched.  Once the directory is made the runner returns, and
    its result and the processes it launched follow one of seven paths:
    the source cannot be written; the call of the compiler raises anything
    but the timeout (it cannot be started, its output cannot be decoded),
    times out, or ends with an exit code other than 0; or, after a compiler
    run with exit code 0, the call of the compiled class raises, times out
    or runs to its end.  An exception is exit code -2 with its text, a
    timeout is the timeout result, and a process that finishes is passed
    on as it is. *)
Theorem run_java_realtime_outcome E code timeout w :
  toolchain_found E ->
  (forall text,
     run_java_realtime_from (NotMade text) E code timeout w
     = (Raise (Exception text), w))
  /\ exists r ls,
       (run_java_realtime_from Made E code timeout w).1 = Return r
       /\ java_outcome E code timeout r ls
       /\ launches (log (run_java_realtime_from Made E code timeout w).2)
          = launches (log w) ++ ls.
Proof.
  intros Ht. split.
  { intros text. destruct Ht as [Hc Hj]. unfold run_java_realtime_from.
    rewrite Hc, Hj. reflexivity. }
  rewrite run_java_realtime_from_made.
  rewrite (run_java_realtime_unfold _ _ _ _ Ht).
  pose (javac := which E (lit "javac")). pose (java_exec := which E (lit "java")).
  fold javac java_exec.
  destruct (write_fault E) as [text|] eqn:Hw.
  { java_scenario E (fun w0 => java_write_fault E code timeout javac java_exec
                               (class_name_of code) (temp_name E) w0 text Hw).
    exists ((-2)%Z, [], text), []. cbn [fst snd]. split; [reflexivity|].
    split; [now apply JWriteFailed|]. rewrite Hl. cbn [log].
    rewrite launches_app. reflexivity. }
  destruct (spawn E (javac_argv E code)) as [c|text] eqn:Hs.
  2:{ java_scenario E (fun w0 => java_compile_failed E code timeout javac java_exec
                                 (class_name_of code) (temp_name E) w0 text Hw Hs).
      exists ((-2)%Z, [], text), [javac_argv E code]. cbn [fst snd]. split; [reflexivity|].
      split; [now apply JCompileFailed|]. rewrite Hl. cbn [log files].
      rewrite !launches_app. cbn [launches]. rewrite !app_nil_r. reflexivity. }
  destruct (Z.lt_ge_cases timeout (duration c)) as [Hd|Hd].
  { java_scenario E (fun w0 => java_compile_timeout E code timeout javac java_exec
                               (class_name_of code) (temp_name E) w0 c Hw Hs Hd).
    exists (timed_out c), [javac_argv E code]. cbn [fst snd]. split; [reflexivity|].
    split; [now apply JCompileTimedOut|]. rewrite Hl. cbn [log files].
    rewrite !launches_app. cbn [launches]. rewrite !app_nil_r. reflexivity. }
  destruct (Z.eq_dec (returncode c) 0%Z) as [Hr|Hr].
  2:{ java_scenario E (fun w0 => java_compile_rejected E code timeout javac java_exec
                                 (class_name_of code) (temp_name E) w0 c Hw Hs Hd Hr).
      exists (completed c), [javac_argv E code]. cbn [fst snd]. split; [reflexivity|].
      split; [now apply JCompileRejected|]. rewrite Hl. cbn [log files].
      rewrite !launches_app. cbn [launches]. rewrite !app_nil_r. reflexivity. }
  destruct (spawn E (java_argv E code)) as [d|text] eqn:Hj.
  2:{ java_scenario E (fun w0 => java_run_failed E code timeout javac java_exec
                                 (class_name_of code) (temp_name E) w0 c text
                                 Hw Hs Hd Hr Hj).
      exists ((-2)%Z, [], text), [javac_argv E code; java_argv E code]. cbn [fst snd].
      split; [reflexivity|]. split; [now apply (JRunFailed _ _ _ c)|].
      rewrite Hl. cbn [log files].
      rewrite !launches_app. cbn [launches]. rewrite !app_nil_r, <- !app_assoc.
      reflexivity. }
  destruct (Z.lt_ge_cases timeout (duration d)) as [Hdd|Hdd].
  - java_scenario E (fun w0 => java_run_timeout E code timeout javac java_exec
                               (class_name_of code) (temp_name E) w0 c d
                               Hw Hs Hd Hr Hj Hdd).
    exists (timed_out d), [javac_argv E code; java_argv E code]. cbn [fst snd].
    split; [reflexivity|]. split; [now apply (JRunTimedOut _ _ _ c)|].
    rewrite Hl. cbn [log files].
    rewrite !launches_app. cbn [launches]. rewrite !app_nil_r, <- !app_assoc.
    reflexivity.
  - java_scenario E (fun w0 => java_run_completed E code timeout javac java_exec
                               (class_name_of code) (temp_name E) w0 c d
                               Hw Hs Hd Hr Hj Hdd).
    exists (completed d), [javac_argv E code; java_argv E code]. cbn [fst snd].
    split; [reflexivity|]. split; [now apply (JRunCompleted _ _ _ c)|].
    rewrite Hl. cbn [log files].
    rewrite !launches_app. cbn [launches]. rewrite !app_nil_r, <- !app_assoc.
    reflexivity.
Qed.

(** A failure to write the source takes two different ways out.  The
    Python runner writes before its guarded block: the exception leaves the
    runner, nothing is launched and the empty file made by [mkstemp]
    stays.  The Java runner writes inside its guarded block: it returns
    exit code -2 with the text of the failure, launches nothing, and its
    directory is gone when removing succeeds. *)
Theorem write_fault_raises_or_returns E code timeout w text :
  write_fault E = Some text ->
  ((run_python_realtime E code timeout w).1 = Raise (Exception text)
   /\ files (run_python_realtime E code timeout w).2 !! python_path E = Some (File [])
   /\ launches (log (run_python_realtime E code timeout w).2) = launches (log w))
  /\ (toolchain_found E ->
      (run_java_realtime E code timeout w).1 = Return ((-2)%Z, [], text)
      /\ launches (log (run_java_realtime E code timeout w).2) = launches (log w)
      /\ (remove_fault E = None ->
          files (run_java_realtime E code timeout w).2 !! temp_name E = None)).
Proof.
  intros Hw. split.
  - unfold run_python_realtime, bind at 1 2, Os.mkstemp.
    unfold bind, update_files, emit, ret. cbn [files log].
    fold (python_path E). rewrite (write_file_fault _ _ _ _ _ Hw).
    cbn [fst snd files log]. split; [reflexivity|]. split; [apply lookup_insert_eq|].
    rewrite launches_app. cbn [launches]. apply app_nil_r.
  - intros Ht. rewrite (run_java_realtime_unfold _ _ _ _ Ht).
    match goal with |- context [try_finally _ _ ?w0] =>
      pose proof (java_write_fault E code timeout (which E (lit "javac"))
                    (which E (lit "java")) (class_name_of code) (temp_name E)
                    w0 text Hw) as Hg
    end.
    split; [|split].
    + close_finally Hg (quietly_rmtree_returns E (temp_name E)). reflexivity.
    + close_finally Hg (quietly_rmtree_returns E (temp_name E)).
      cbn [fst snd]. rewrite Hl. cbn [log]. rewrite launches_app. cbn [launches].
      apply app_nil_r.
    + intros Hr. erewrite try_finally_returns;
        [|exact Hg|apply (quietly_rmtree_ok _ _ _ Hr); cbn [files]; apply lookup_insert_eq].
      cbn [fst snd files]. apply in_tree_removed.
      unfold in_tree, str_eqb. rewrite bool_decide_eq_true_2 by reflexivity. reflexivity.
Qed.

(** *** What a run leaves behind *)



Section Quiet.
Variables (E : env) (code : str) (timeout : Z).
Hypothesis quiet : forall argv c, spawn E argv = Launched c -> leaves c = [].



End Quiet.

End OutcomeFacts.

(** ** The run buttons *)

Section PageFacts.
Import Explain ExplainSpec Runner RunnerSpec Page.
Context `{CharTable}.

Lemma explain_runtime_error_head err :
  err <> [] ->
  exists c rest, explain_runtime_error err (lit "Python") = c :: rest /\ c <> 78.
Proof.
  intros Herr. destruct (last (nonblank_lines err)) as [x|] eqn:Hx.
  - rewrite (explain_runtime_error_tiers err x Herr Hx).
    destruct (List.find _ _); eexists _, _; (split; [reflexivity|discriminate]).
  - apply last_None in Hx.
    pose proof (explain_blank err Python Herr Hx) as Hb. cbn [explain language_name] in Hb.
    rewrite Hb. eexists _, _. split; [reflexivity|discriminate].
Qed.

Lemma explain_java_error_head err :
  err <> [] ->
  exists c rest, explain_java_error err = c :: rest /\ c <> 78.
Proof.
  intros Herr. destruct (last (nonblank_lines err)) as [x|] eqn:Hx.
  - rewrite (explain_java_error_tiers err x Herr Hx).
    destruct (List.find _ _); [eexists _, _; (split; [reflexivity|discriminate])|].
    destruct (List.find _ _); eexists _, _; (split; [reflexivity|discriminate]).
  - apply last_None in Hx.
    pose proof (explain_blank err Java Herr Hx) as Hb. cbn [explain] in Hb.
    rewrite Hb. eexists _, _. split; [reflexivity|discriminate].
Qed.

Lemma truthy_false (s : str) : truthy s = false <-> s = [].
Proof. destruct s; simpl; split; congruence. Qed.

(** Both pages show success exactly when the exit code is 0 and nothing
    was written to the error stream.  On any other result what they show
    does not depend on the output of the program, and the explanation they
    show is never one of the two sentences for no error. *)
Theorem run_pages_verdict (rc : Z) (out err : str) :
  (In (St_success (lit "No errors occurred during execution."))
      (show_python_result rc out err) <-> rc = 0%Z /\ err = [])
  /\ (In (St_success (lit "No errors occurred during execution."))
         (show_java_result rc out err) <-> rc = 0%Z /\ err = [])
  /\ (rc <> 0%Z \/ err <> [] ->
      forall out', show_python_result rc out' err = show_python_result rc out err
                   /\ show_java_result rc out' err = show_java_result rc out err)
  /\ (forall t, In (St_info t) (show_python_result rc out err)
                \/ In (St_info t) (show_java_result rc out err) ->
                t <> no_errors_sentence Python /\ t <> no_errors_sentence Java).
Proof.
  assert (Hcond : (rc =? 0)%Z && negb (truthy err) = true <-> rc = 0%Z /\ err = []).
  { rewrite andb_true_iff, Z.eqb_eq, negb_true_iff, truthy_false. tauto. }
  unfold show_python_result, show_java_result.
  destruct ((rc =? 0)%Z && negb (truthy err)) eqn:Hc.
  - assert (Hok : rc = 0%Z /\ err = []) by now apply Hcond.
    split; [split; [tauto|intros _; now left]|].
    split; [split; [tauto|intros _; now left]|].
    split; [intros [Hrc|Herr]; tauto|].
    intros t [Hin|Hin]; destruct (truthy out); cbn [In] in Hin;
      repeat (destruct Hin as [Hin|Hin]; try discriminate Hin); try contradiction.
  - assert (Hno : ~ (rc = 0%Z /\ err = [])) by (intros Hx; apply Hcond in Hx; discriminate).
    split.
    { split; [|tauto]. destruct (truthy err); cbn [In]; intros Hin;
        repeat (destruct Hin as [Hin|Hin]; try discriminate Hin); try contradiction. }
    split.
    { split; [|tauto]. destruct (rc =? -3)%Z; destruct (truthy err); cbn [In]; intros Hin;
        repeat (destruct Hin as [Hin|Hin]; try discriminate Hin); try contradiction. }
    split; [intros _ out'; split; reflexivity|].
    assert (Hline : forall t, exit_code_line rc = t ->
              t <> no_errors_sentence Python /\ t <> no_errors_sentence Java).
    { intros t <-. split; discriminate. }
    intros t [Hin|Hin].
    + destruct (truthy err) eqn:Herr; cbn [In] in Hin;
        repeat (destruct Hin as [Hin|Hin]; try discriminate Hin); try contradiction.
      * injection Hin as <-.
        destruct (explain_runtime_error_head err) as (c & rest & -> & Hc78).
        { intros ->. discriminate. }
        split; intros [= Heq _]; now apply Hc78.
      * injection Hin as Hin. now apply Hline.
    + destruct (rc =? -3)%Z; destruct (truthy err) eqn:Herr; cbn [In] in Hin;
        repeat (destruct Hin as [Hin|Hin]; try discriminate Hin); try contradiction.
      * injection Hin as <-.
        destruct (explain_java_error_head err) as (c & rest & -> & Hc78).
        { intros ->. discriminate. }
        split; intros [= Heq _]; now apply Hc78.
      * injection Hin as Hin. now apply Hline.
Qed.

(** The Java page shows its message about a missing toolchain, and
    nothing else, whenever [javac] or [java] is not found; the run has then
    touched nothing.  It shows the very same message, and neither the error
    text nor an explanation, when the toolchain is there and the compiler
    itself ends with exit code -3. *)
Theorem java_page_toolchain_message E code w :
  let message :=
    [St_error (lit "Java toolchain not found: javac/java must be on PATH to run Java code.")] in
  (missing (which E (lit "javac")) = true \/ missing (which E (lit "java")) = true ->
   run_uploaded_java E code w = (Return message, w))
  /\ (toolchain_found E -> write_fault E = None ->
      forall c, spawn E (javac_argv E code) = Launched c ->
                (duration c <= 10)%Z -> returncode c = (-3)%Z ->
                (run_uploaded_java E code w).1 = Return message).
Proof.
  intros message. split.
  - intros Hm. unfold run_uploaded_java, bind.
    rewrite (run_java_realtime_missing _ _ _ _ Hm). reflexivity.
  - intros Ht Hw c Hs Hd Hr. unfold run_uploaded_java, bind.
    rewrite (run_java_realtime_unfold _ _ _ _ Ht).
    assert (Hne : returncode c <> 0%Z) by (rewrite Hr; discriminate).
    match goal with |- context [try_finally _ _ ?w0] =>
      pose proof (java_compile_rejected E code 10 (which E (lit "javac"))
                    (which E (lit "java")) (class_name_of code) (temp_name E)
                    w0 c Hw Hs Hd Hne) as Hg
    end.
    match type of Hg with
    | _ ?w0 = (_, ?w1) =>
        destruct (quietly_rmtree_returns E (temp_name E) w1) as (w2 & Hq & _);
        rewrite (try_finally_returns _ _ w0 _ w1 w2 Hg Hq)
    end.
    unfold ret, completed, show_java_result. cbn [fst snd]. rewrite Hr. reflexivity.
Qed.

End PageFacts.

(** ** The relay under a fair schedule *)

Section RelayProgressFacts.
Import Relay RelaySpec RelayProgress.
Context {Ev Info : Type}.
Implicit Types (s : state Ev Info) (op : operation Ev Info) (sched : list actor).

Lemma run_app sched1 sched2 s : run (sched1 ++ sched2) s = run sched2 (run sched1 s).
Proof. unfold run. apply foldl_app. Qed.

Lemma run_thread_turns m s : run (repeat Thread m) s = Nat.iter m worker_step s.
Proof.
  revert s. induction m as [|m IH]; intros s; [reflexivity|].
  cbn [repeat]. rewrite run_cons, Nat.iter_succ_r. apply IH.
Qed.

Lemma run_page_turns k s : run (repeat Page k) s = Nat.iter k poller_step s.
Proof.
  revert s. induction k as [|k IH]; intros s; [reflexivity|].
  cbn [repeat]. rewrite run_cons, Nat.iter_succ_r. apply IH.
Qed.

Lemma thread_finishes m s :
  (thread_rank s <= m)%nat -> thread (Nat.iter m worker_step s) = Exited.
Proof.
  revert s. induction m as [|m IH]; intros s Hr.
  - unfold thread_rank in Hr. simpl. destruct (thread s); simpl in Hr; try lia. reflexivity.
  - rewrite Nat.iter_succ_r. apply IH. revert Hr.
    destruct s as [th pg eq rq ob]. unfold thread_rank, worker_step.
    cbn [thread page events_q result_q observed].
    destruct th as [[|e rest] [info|text|]|o| |]; cbn [thread length]; lia.
Qed.

Lemma poller_iter_thread k s : thread (Nat.iter k poller_step s) = thread s.
Proof.
  induction k as [|k IH]; [reflexivity|].
  now rewrite Nat.iter_succ, poller_step_thread.
Qed.

Lemma poller_keeps_empty k s :
  events_q s = [] -> events_q (Nat.iter k poller_step s) = [].
Proof.
  revert s. induction k as [|k IH]; intros s Hq; [exact Hq|].
  rewrite Nat.iter_succ_r. apply IH. destruct s as [th pg eq rq ob].
  cbn [events_q] in Hq. subst eq. unfold poller_step, goto, is_alive.
  cbn [thread page events_q result_q observed].
  destruct pg; try reflexivity; try (destruct th; reflexivity); destruct rq; reflexivity.
Qed.

(** Kept in its loop by a waiting result, the page empties the events
    queue. *)
Lemma page_drains k s :
  thread s = Exited -> result_q s <> [] -> left_loop s = false ->
  (drain_rank s <= k)%nat -> events_q (Nat.iter k poller_step s) = [].
Proof.
  revert s. induction k as [|k IH]; intros s Ht Hr Hl Hk.
  - destruct s as [th pg eq rq ob]. unfold drain_rank in Hk.
    cbn [page events_q] in Hk. simpl. destruct pg; simpl in Hk; try lia;
      destruct eq; simpl in Hk; try lia; reflexivity.
  - rewrite Nat.iter_succ_r. destruct s as [th pg eq rq ob].
    cbn [thread result_q] in Ht, Hr. subst th. unfold left_loop in Hl. cbn [page] in Hl.
    unfold drain_rank in Hk. cbn [page events_q] in Hk.
    destruct pg; try discriminate; unfold poller_step, goto, is_alive;
      cbn [thread page events_q result_q observed].
    + apply IH; try assumption; try reflexivity. unfold drain_rank. cbn. lia.
    + destruct rq as [|o rq]; [contradiction|].
      apply IH; try assumption; try reflexivity. unfold drain_rank. cbn. lia.
    + destruct eq as [|ev q].
      * apply poller_keeps_empty. reflexivity.
      * apply IH; try assumption; try reflexivity. unfold drain_rank. cbn.
        simpl in Hk. lia.
    + apply IH; try assumption; try reflexivity. unfold drain_rank. cbn. lia.
Qed.

Lemma pending_bound op s : invariant op s ->
  (length (pending s) <= length (ticks op))%nat
  /\ (length (events_q s) <= length (ticks op))%nat.
Proof.
  intros (Hord & _). rewrite <- Hord, !length_app. lia.
Qed.

Lemma thread_rank_bound op s : invariant op s ->
  (thread_rank s <= length (ticks op) + 3)%nat.
Proof.
  intros Hinv. destruct (pending_bound op s Hinv) as [Hp _].
  unfold thread_rank, pending in *. destruct (thread s); lia.
Qed.

(** Every tick is delivered.  Let the extraction return or raise.  From
    any point of any run, once the thread has had time to finish and the
    page has polled long enough, the page has handled all ticks in their
    order; the one outcome lies on the result queue, and the page is still
    in its loop. *)
Theorem relay_delivers_every_tick op sched o (m k : nat) :
  outcome_of (end_of op) = Some o ->
  (length (ticks op) + 3 <= m)%nat -> (length (ticks op) + 3 <= k)%nat ->
  observed (run (sched ++ repeat Thread m ++ repeat Page k) (start op)) = ticks op
  /\ result_q (run (sched ++ repeat Thread m ++ repeat Page k) (start op)) = [o]
  /\ left_loop (run (sched ++ repeat Thread m ++ repeat Page k) (start op)) = false.
Proof.
  intros Ho Hm Hk.
  pose proof (invariant_run op (sched ++ repeat Thread m ++ repeat Page k)) as Hfinal.
  pose proof (invariant_run op (sched ++ repeat Thread m)) as Hmid.
  pose proof (invariant_run op sched) as Hpre.
  rewrite app_assoc, run_app in Hfinal |- *. rewrite run_app in Hmid, Hfinal |- *.
  set (s0 := run sched (start op)) in *.
  rewrite run_thread_turns in Hmid, Hfinal |- *. rewrite run_page_turns in Hfinal |- *.
  assert (Hexit : thread (Nat.iter m worker_step s0) = Exited).
  { apply thread_finishes. pose proof (thread_rank_bound op s0 Hpre). lia. }
  set (s1 := Nat.iter m worker_step s0) in *.
  destruct Hmid as (Hord1 & _ & Hth1). rewrite Hexit, Ho in Hth1.
  destruct Hth1 as [Hrq1 Hloop1].
  assert (Hempty : events_q (Nat.iter k poller_step s1) = []).
  { apply page_drains; try assumption.
    - rewrite Hrq1. discriminate.
    - assert (Hq : (length (events_q s1) <= length (ticks op))%nat).
      { rewrite <- Hord1, !length_app. lia. }
      unfold drain_rank. destruct (page s1); lia. }
  destruct Hfinal as (Hord & _ & Hth).
  unfold pending in Hord. rewrite poller_iter_thread, Hexit in Hord, Hth.
  rewrite Ho in Hth. rewrite Hempty, !app_nil_r in Hord. tauto.
Qed.

Lemma dies_report op sched r :
  outcome_of (end_of op) = None ->
  page (run sched (start op)) = Done r -> r = report_of None.
Proof.
  intros Ho. induction sched as [|a sched IH] using rev_ind; [discriminate|].
  rewrite run_snoc. pose proof (invariant_run op sched) as (_ & _ & Hth).
  destruct (run sched (start op)) as [th pg eq rq ob].
  cbn [thread page result_q] in *. destruct a; cbn [step].
  - unfold worker_step. cbn [thread page events_q result_q observed].
    destruct th as [[|e rest] [info|text|]|o| |]; exact IH.
  - unfold poller_step, goto, is_alive. cbn [thread page events_q result_q observed].
    destruct pg; try (destruct th; discriminate); try discriminate.
    + destruct rq; discriminate.
    + destruct eq; discriminate.
    + destruct rq as [|o rq]; cbn [page]; [intros [= <-]; reflexivity|].
      exfalso. rewrite Ho in Hth.
      destruct th; try (destruct Hth as (_ & Hrq & _); discriminate).
      * destruct Hth as (o' & Ho' & _). discriminate.
      * discriminate.
    + exact IH.
Qed.

(** With the thread dead and no result, the page leaves its loop and
    shows the report for a missing result. *)
Lemma page_exits k s :
  thread s = Exited -> result_q s = [] ->
  (forall r, page s = Done r -> r = report_of None) ->
  (exit_rank s <= k)%nat -> page (Nat.iter k poller_step s) = Done (report_of None).
Proof.
  revert s. induction k as [|k IH]; intros s Ht Hr Hd Hk.
  - unfold exit_rank in Hk. simpl. destruct (page s) eqn:Hp; simpl in Hk; try lia.
    f_equal. now apply Hd.
  - rewrite Nat.iter_succ_r. destruct s as [th pg eq rq ob].
    cbn [thread result_q page] in Ht, Hr, Hd. subst th rq.
    unfold exit_rank in Hk. cbn [page events_q] in Hk.
    destruct pg; unfold poller_step, goto, is_alive;
      cbn [thread page events_q result_q observed].
    + apply IH; try reflexivity; [discriminate|]. unfold exit_rank. cbn. lia.
    + apply IH; try reflexivity; [discriminate|]. unfold exit_rank. cbn. lia.
    + destruct eq as [|ev q].
      * apply IH; try reflexivity; [discriminate|]. unfold exit_rank. cbn. lia.
      * apply IH; try reflexivity; [discriminate|]. unfold exit_rank. cbn.
        simpl in Hk. lia.
    + apply IH; try reflexivity; [discriminate|]. unfold exit_rank. cbn. lia.
    + apply IH; try reflexivity; [intros r0 [= <-]; reflexivity|]. unfold exit_rank. cbn. lia.
    + apply IH; try reflexivity; [exact Hd|]. unfold exit_rank. cbn. lia.
Qed.

(** A dead thread always surfaces.  Let the thread die of something
    [except Exception] does not catch.  From any point of any run, once the
    thread has had time to end and the page has polled long enough, the page
    has left its loop and shows that the download failed or was
    interrupted; it never shows success. *)
Theorem relay_death_surfaces op sched (m k : nat) :
  outcome_of (end_of op) = None ->
  (length (ticks op) + 3 <= m)%nat -> (length (ticks op) + 5 <= k)%nat ->
  page (run (sched ++ repeat Thread m ++ repeat Page k) (start op))
  = Done (ShowError (lit "Download failed or was interrupted.")).
Proof.
  intros Ho Hm Hk.
  pose proof (invariant_run op (sched ++ repeat Thread m)) as Hmid.
  pose proof (invariant_run op sched) as Hpre.
  rewrite app_assoc, !run_app. rewrite run_app in Hmid.
  set (s0 := run sched (start op)) in *.
  rewrite run_thread_turns in Hmid |- *. rewrite run_page_turns.
  assert (Hexit : thread (Nat.iter m worker_step s0) = Exited).
  { apply thread_finishes. pose proof (thread_rank_bound op s0 Hpre). lia. }
  assert (Hdone : forall r, page (Nat.iter m worker_step s0) = Done r -> r = report_of None).
  { intros r Hr. apply (dies_report op (sched ++ repeat Thread m) r Ho).
    rewrite run_app, run_thread_turns. exact Hr. }
  set (s1 := Nat.iter m worker_step s0) in *.
  destruct Hmid as (Hord1 & _ & Hth1). rewrite Hexit, Ho in Hth1.
  change (ShowError (lit "Download failed or was interrupted."))
    with (@report_of Info None).
  apply page_exits; try assumption.
  assert (Hq : (length (events_q s1) <= length (ticks op))%nat).
  { rewrite <- Hord1, !length_app. lia. }
  unfold exit_rank. destruct (page s1); lia.
Qed.

End RelayProgressFacts.

(** ** Sorting, sanitizing and resolving *)

Section FilesMore.
Import Files FilesSpec.

Lemma insert_desc_perm x l : insert_desc x l ≡ₚ x :: l.
Proof.
  induction l as [|y l IH]; simpl; [reflexivity|].
  destruct (mtime x <? mtime y)%Z; [|reflexivity].
  rewrite IH. apply Permutation_swap.
Qed.

Lemma insert_desc_sorted x l :
  StronglySorted (fun a b => (mtime b <= mtime a)%Z) l ->
  StronglySorted (fun a b => (mtime b <= mtime a)%Z) (insert_desc x l).
Proof.
  induction 1 as [|y l Hs IH Hy]; simpl.
  - repeat constructor.
  - destruct (mtime x <? mtime y)%Z eqn:Hlt.
    + apply Z.ltb_lt in Hlt. constructor; [exact IH|].
      apply List.Forall_forall. intros z Hz. apply insert_desc_In in Hz.
      destruct Hz as [<-|Hz]; [lia|]. rewrite List.Forall_forall in Hy. now apply Hy.
    + apply Z.ltb_ge in Hlt. constructor; [now constructor|].
      constructor; [exact Hlt|].
      apply List.Forall_forall. intros z Hz. rewrite List.Forall_forall in Hy.
      specialize (Hy z Hz). lia.
Qed.

Lemma insert_desc_stable t x l :
  List.filter (fun e => (mtime e =? t)%Z) (insert_desc x l)
  = List.filter (fun e => (mtime e =? t)%Z) (x :: l).
Proof.
  induction l as [|y l IH]; [reflexivity|]. cbn [insert_desc].
  destruct (mtime x <? mtime y)%Z eqn:Hlt; [|reflexivity].
  apply Z.ltb_lt in Hlt. cbn [List.filter] in *. rewrite IH.
  destruct (mtime y =? t)%Z eqn:Hy; destruct (mtime x =? t)%Z eqn:Hx; try reflexivity.
  apply Z.eqb_eq in Hy, Hx. lia.
Qed.

(** Sorting the listing by time, latest first, keeps every entry, puts no
    entry before a later one, and leaves entries of the same time in the
    order of the listing; so of several latest entries the one listed first
    comes out on top. *)
Theorem sort_latest_first_stable (l : list entry) :
  sort_latest_first l ≡ₚ l
  /\ StronglySorted (fun a b => (mtime b <= mtime a)%Z) (sort_latest_first l)
  /\ (forall t, List.filter (fun e => (mtime e =? t)%Z) (sort_latest_first l)
                = List.filter (fun e => (mtime e =? t)%Z) l)
  /\ (forall e, head (sort_latest_first l) = Some e ->
      head (List.filter (fun e' => (mtime e' =? mtime e)%Z) l) = Some e
      /\ forall e', In e' l -> (mtime e' <= mtime e)%Z).
Proof.
  assert (Hperm : sort_latest_first l ≡ₚ l).
  { induction l as [|x l IH]; simpl; [reflexivity|].
    now rewrite insert_desc_perm, IH. }
  assert (Hstable : forall t,
            List.filter (fun e => (mtime e =? t)%Z) (sort_latest_first l)
            = List.filter (fun e => (mtime e =? t)%Z) l).
  { intros t. induction l as [|x l IH]; simpl; [reflexivity|].
    rewrite insert_desc_stable. cbn [List.filter].
    rewrite IH; [reflexivity|]. clear -l. induction l as [|y l IH]; simpl; [reflexivity|].
    now rewrite insert_desc_perm, IH. }
  split; [exact Hperm|]. split; [|split; [exact Hstable|]].
  - clear. induction l as [|x l IH]; simpl; [constructor|].
    now apply insert_desc_sorted.
  - intros e He. split.
    + rewrite <- Hstable. destruct (sort_latest_first l) as [|e0 l0]; [discriminate|].
      injection He as ->. cbn [List.filter]. rewrite Z.eqb_refl. reflexivity.
    + now apply sort_latest_first_head.
Qed.

Lemma filter_sublist {A} (p : A -> bool) l : sublist (List.filter p l) l.
Proof.
  induction l as [|x l IH]; simpl; [constructor|].
  destruct (p x); [now apply sublist_skip|now apply sublist_cons].
Qed.

Lemma rstrip_prefix (s : str) : exists w, s = rstrip s ++ w.
Proof.
  exists (rev (take_while isspace (rev s))). unfold rstrip.
  rewrite <- rev_app_distr, take_drop_while. symmetry. apply rev_involutive.
Qed.

Lemma rstrip_sublist (s : str) : sublist (rstrip s) s.
Proof.
  destruct (rstrip_prefix s) as [w Hw]. rewrite Hw at 2.
  apply sublist_inserts_r. reflexivity.
Qed.

Section WithTable.
Context `{CharTable}.
Variable BASE_DIR : str.

(** Sanitizing only removes characters: the result is the name with
    characters left out.  When the table behind [isalnum] agrees with ASCII
    on the ASCII characters, the result holds no wildcard of a file pattern
    (star, question mark, brackets) and no path separator (slash,
    backslash). *)
Theorem sanitize_filename_safe (name : str) :
  (forall c, c < 128 -> isalnum c = ascii_isalnum c) ->
  sublist (sanitize_filename name) name
  /\ Forall (fun c => c <> 42 /\ c <> 63 /\ c <> 91 /\ c <> 93 /\ c <> 47 /\ c <> 92)
            (sanitize_filename name).
Proof.
  intros Hascii. split.
  - unfold sanitize_filename. etransitivity; [apply rstrip_sublist|apply filter_sublist].
  - apply List.Forall_forall. intros c Hc. apply sanitize_filename_keeps in Hc.
    unfold keep in Hc.
    assert (Hsmall : c < 128 -> ascii_isalnum c || (c =? 32) || (c =? 45) || (c =? 95) = true).
    { intros Hlt. now rewrite <- (Hascii c Hlt). }
    unfold ascii_isalnum in Hsmall. clear Hc Hascii.
    repeat split; intros ->; discriminate (Hsmall eq_refl).
Qed.

(** For a download directory whose path holds no wildcard character,
    the search never answers with a file that is not there: what it finds
    is the expected file, which exists, or the path of a listed entry
    whose name does not start with a dot.  It finds nothing exactly when
    the expected file does not exist and the directory has no entry whose
    name does not start with a dot. *)
Theorem resolve_finds_existing (d : disk) (expected : option str) (title : str) :
  has_magic (DOWNLOAD_DIR BASE_DIR) = false ->
  ascii_law ->
  (forall p, resolve BASE_DIR d expected title = Some p ->
     ((expected = Some p /\ expected_exists BASE_DIR d expected = true)
      \/ exists e, In e (listing d) /\ visible e = true /\ p = path_of BASE_DIR e)
     /\ exists_path BASE_DIR d p = true)
  /\ (resolve BASE_DIR d expected title = None
      <-> expected_exists BASE_DIR d expected = false
          /\ List.filter visible (listing d) = []).
Proof.
  intros Hplain Htable.
  destruct (resolve_steps BASE_DIR Hplain Htable d expected title) as [Hone Hsearch].
  destruct (expected_exists BASE_DIR d expected) eqn:Hex.
  - rewrite (Hone eq_refl). unfold expected_exists in Hex.
    destruct expected as [q|]; [|discriminate].
    apply andb_true_iff in Hex as [Hq Hex]. split.
    + intros p [= <-]. split; [|exact Hex]. left. split; reflexivity.
    + split; [discriminate|]. intros [Hf _]. discriminate.
  - destruct (Hsearch eq_refl) as (Htitled & Hall & Hnone). clear Hone Hsearch.
    assert (Hvis : forall e, In e (List.filter visible (listing d)) ->
              In e (listing d) /\ visible e = true).
    { intros e He. now apply filter_In in He. }
    assert (Hfound : forall e, In e (List.filter visible (listing d)) ->
              forall p, Some (path_of BASE_DIR e) = Some p ->
              ((expected = Some p /\ false = true)
               \/ exists e, In e (listing d) /\ visible e = true /\ p = path_of BASE_DIR e)
              /\ exists_path BASE_DIR d p = true).
    { intros e He p [= <-]. destruct (Hvis e He) as [Hin Hv]. split.
      - right. eauto.
      - now apply exists_path_in. }
    destruct (List.filter (titled title) (List.filter visible (listing d)))
      as [|x l] eqn:Hf.
    + destruct (List.filter visible (listing d)) as [|y cands] eqn:Hv.
      * rewrite (Hnone eq_refl). split; [discriminate|]. tauto.
      * destruct (Hall eq_refl) as (e & [He _] & ->); [discriminate|]. split.
        -- now apply Hfound.
        -- split; [discriminate|]. intros [_ Hnil]. discriminate.
    + destruct Htitled as (e & [He _] & ->); [discriminate|]. split.
      * apply Hfound. rewrite <- Hf in He. now apply filter_In in He.
      * split; [discriminate|]. intros [_ Hnil]. rewrite Hnil in Hf. discriminate.
Qed.

End WithTable.

End FilesMore.

(** ** The download button *)

Section DownloadFacts.
Import Options DownloadPage.

Lemma drop_while_nil p (s : str) :
  drop_while p s = [] <-> Forall (fun c => p c = true) s.
Proof.
  induction s as [|c s IH]; simpl.
  - split; [constructor|reflexivity].
  - destruct (p c) eqn:Hc.
    + rewrite IH. split; [now constructor|now inversion 1].
    + split; [discriminate|]. inversion 1; congruence.
Qed.

Lemma strip_nil (s : str) : strip s = [] <-> Forall (fun c => isspace c = true) s.
Proof.
  unfold strip, lstrip, rstrip. rewrite <- drop_while_nil. split.
  - intros Hs. apply (f_equal (@rev N)) in Hs. rewrite rev_involutive in Hs. simpl in Hs.
    apply drop_while_nil in Hs.
    destruct (drop_while isspace s) as [|c t] eqn:Hd; [reflexivity|].
    pose proof (drop_while_head _ _ _ _ Hd) as Hc.
    rewrite List.Forall_forall in Hs. specialize (Hs c).
    rewrite <- in_rev in Hs. rewrite Hs in Hc; [discriminate|now left].
  - intros ->. reflexivity.
Qed.

(** A click with a URL of nothing but whitespace is turned away with a
    message and starts nothing; a click with any other text starts the
    download with the prepared options, whatever the text is. *)
Theorem download_clicked_checks_blank (BASE_DIR : str) (which_ffmpeg : option str)
    (url choice : str) :
  (Forall (fun c => isspace c = true) url ->
   download_clicked BASE_DIR which_ffmpeg url choice
   = Rejected (lit "Please paste a YouTube URL."))
  /\ (~ Forall (fun c => isspace c = true) url ->
      download_clicked BASE_DIR which_ffmpeg url choice
      = Started (prepare_opts BASE_DIR which_ffmpeg choice).1
                (prepare_opts BASE_DIR which_ffmpeg choice).2).
Proof.
  unfold download_clicked. split; intros Hu.
  - apply strip_nil in Hu. rewrite Hu. reflexivity.
  - destruct (strip url) as [|c t] eqn:Hs; [|reflexivity].
    apply strip_nil in Hs. contradiction.
Qed.

End DownloadFacts.

(** ** More statements at sample inputs *)

Section MoreSamples.
Import Explain ExplainSpec Runner RunnerSpec PatternSpec Relay RelaySpec Files FilesSpec.
Import Review ReviewSpec Options DownloadPage Page Outcomes Samples MoreSamples.
#[local] Existing Instance ascii_table.

Lemma detect_java_issues_reports_witness :
  occurs_with_gap (lit "==") [34] (lit "if (s ==  " ++ [34] ++ lit "a" ++ [34] ++ lit ") {}")
  /\ In string_equality_issue
        (detect_java_issues (lit "if (s ==  " ++ [34] ++ lit "a" ++ [34] ++ lit ") {}")).
Proof.
  assert (Hocc : occurs_with_gap (lit "==") [34]
                   (lit "if (s ==  " ++ [34] ++ lit "a" ++ [34] ++ lit ") {}")).
  { exists (lit "if (s "), (lit "  "), (lit "a" ++ [34] ++ lit ") {}").
    split; [reflexivity|]. repeat constructor. }
  split; [exact Hocc|].
  destruct (detect_java_issues_reports
              (lit "if (s ==  " ++ [34] ++ lit "a" ++ [34] ++ lit ") {}"))
    as (_ & _ & Heq & _).
  apply Heq. exact Hocc.
Defined.

Lemma explain_issues_nl_quotes_witness :
  nth_error [generic_catch_issue] 0 = Some generic_catch_issue
  /\ exists e, nth_error (explain_issues_nl [generic_catch_issue] (lit "Java")) 0 = Some e
               /\ occurs (lit "'" ++ generic_catch_issue ++ lit "'") e
               /\ occurs (lit "In your " ++ lit "Java" ++ lit " code") e.
Proof.
  split; [reflexivity|].
  destruct (explain_issues_nl_quotes [generic_catch_issue] (lit "Java")) as [_ Hq].
  apply (Hq 0%nat). reflexivity.
Defined.

Lemma runtime_error_detection_java_witness :
  lit "Java" <> lit "Python"
  /\ (In main_missing_error
         (runtime_error_detection (fun _ => None) (lit "int x = 1;") (lit "Java"))
      <-> ~ occurs (lit "public static void main") (lit "int x = 1;")).
Proof.
  split; [discriminate|].
  destruct (runtime_error_detection_java (fun _ => None) (lit "int x = 1;") (lit "Java"))
    as (Hmain & _); [discriminate|exact Hmain].
Defined.

Lemma adjust_opts_for_ffmpeg_frame_witness :
  In mp3_choice choices
  /\ (adjust_opts_for_ffmpeg None audio_opts mp3_choice).1 !! "postprocessors" = None
  /\ (adjust_opts_for_ffmpeg None audio_opts mp3_choice).1 !! "quiet" = Some (Flag true).
Proof.
  assert (Hc : In mp3_choice choices) by (right; right; left; reflexivity).
  split; [exact Hc|].
  destruct (adjust_opts_for_ffmpeg_frame None audio_opts mp3_choice)
    as (_ & Hframe & _).
  destruct (Hframe eq_refl Hc) as (Hpost & Hkeep & _).
  split; [exact Hpost|]. rewrite Hkeep; [reflexivity|discriminate|discriminate].
Defined.

Lemma prepare_opts_by_choice_witness :
  In best_choice choices
  /\ asks_merge ((prepare_opts app_dir None best_choice).1 !! "format") = false.
Proof.
  assert (Hc : In best_choice choices) by (left; reflexivity).
  split; [exact Hc|].
  destruct (prepare_opts_by_choice app_dir None best_choice Hc) as (_ & _ & _ & _ & Hm).
  apply Hm. reflexivity.
Defined.

Lemma run_python_realtime_outcome_witness :
  write_fault (host quick None) = None
  /\ exists r evs,
       (run_python_realtime_from Made (host quick None) (lit "print(1+1)") 6
          empty_world).1 = Return r
       /\ python_outcome (host quick None) 6 r
       /\ log (run_python_realtime_from Made (host quick None) (lit "print(1+1)") 6
                 empty_world).2
          = log empty_world ++ Created (python_path (host quick None))
              :: Wrote (python_path (host quick None)) (lit "print(1+1)")
              :: Spawned [executable (host quick None); python_path (host quick None)] 6
              :: evs
       /\ launches evs = [].
Proof.
  split; [reflexivity|].
  destruct (run_python_realtime_outcome (host quick None) (lit "print(1+1)") 6
              empty_world) as [_ Hmade].
  apply Hmade. reflexivity.
Defined.

Lemma run_java_realtime_outcome_witness :
  toolchain_found (host quick None)
  /\ run_java_realtime_from (NotMade (lit "No usable temporary directory"))
       (host quick None) (lit "int x = 1;") 10 empty_world
     = (Raise (Exception (lit "No usable temporary directory")), empty_world)
  /\ exists r ls,
       (run_java_realtime_from Made (host quick None) (lit "int x = 1;") 10
          empty_world).1 = Return r
       /\ java_outcome (host quick None) (lit "int x = 1;") 10 r ls
       /\ launches (log (run_java_realtime_from Made (host quick None)
                           (lit "int x = 1;") 10 empty_world).2)
          = launches (log empty_world) ++ ls.
Proof.
  split; [apply toolchain_on_host|].
  destruct (run_java_realtime_outcome (host quick None) (lit "int x = 1;") 10
              empty_world (toolchain_on_host quick None)) as [Hnot Hmade].
  split; [apply Hnot|exact Hmade].
Defined.

Lemma toolchain_on_full_disk : toolchain_found full_disk.
Proof. split; reflexivity. Qed.

Lemma write_fault_raises_or_returns_witness :
  write_fault full_disk = Some (lit "No space left on device")
  /\ (run_python_realtime full_disk (lit "print(1)") 6 empty_world).1
     = Raise (Exception (lit "No space left on device"))
  /\ (run_java_realtime full_disk (lit "int x = 1;") 10 empty_world).1
     = Return ((-2)%Z, [], lit "No space left on device").
Proof.
  split; [reflexivity|]. split.
  - destruct (write_fault_raises_or_returns full_disk (lit "print(1)") 6 empty_world
                (lit "No space left on device") eq_refl) as [(Hraise & _) _].
    exact Hraise.
  - destruct (write_fault_raises_or_returns full_disk (lit "int x = 1;") 10 empty_world
                (lit "No space left on device") eq_refl) as [_ Hjava].
    apply Hjava. apply toolchain_on_full_disk.
Defined.


Lemma run_pages_verdict_witness :
  (0%Z <> 0%Z \/ lit "warning: deprecated" <> [])
  /\ ~ In (St_success (lit "No errors occurred during execution."))
          (show_python_result 0 (lit "2") (lit "warning: deprecated")).
Proof.
  split; [right; discriminate|].
  destruct (run_pages_verdict 0 (lit "2") (lit "warning: deprecated")) as (Hpy & _).
  intros Hin. apply Hpy in Hin. destruct Hin as [_ Herr]. discriminate.
Defined.

Lemma java_page_toolchain_message_witness :
  toolchain_found (host signalled None)
  /\ write_fault (host signalled None) = None
  /\ returncode signalled = (-3)%Z
  /\ (run_uploaded_java (host signalled None) (lit "int x = 1;") empty_world).1
     = Return [St_error (lit "Java toolchain not found: javac/java must be on PATH to run Java code.")].
Proof.
  split; [apply toolchain_on_host|]. split; [reflexivity|]. split; [reflexivity|].
  destruct (java_page_toolchain_message (host signalled None) (lit "int x = 1;") empty_world)
    as [_ Hsame].
  apply (Hsame (toolchain_on_host _ _) eq_refl signalled); [reflexivity|cbn; lia|reflexivity].
Defined.

Lemma relay_delivers_every_tick_witness :
  let op := {| ticks := [1%nat; 2%nat]; end_of := Returns 7%nat |} in
  outcome_of (end_of op) = Some (Finished 7%nat)
  /\ observed (run ([Page; Thread] ++ repeat Thread 5 ++ repeat Page 5) (start op))
     = [1%nat; 2%nat].
Proof.
  intros op. split; [reflexivity|].
  destruct (relay_delivers_every_tick op [Page; Thread] (Finished 7%nat) 5 5)
    as (Hobs & _); [reflexivity|cbn; lia|cbn; lia|exact Hobs].
Defined.

Lemma relay_death_surfaces_witness :
  let op := {| ticks := [1%nat]; end_of := @Dies nat |} in
  outcome_of (end_of op) = None
  /\ page (run ([Page; Thread; Page] ++ repeat Thread 4 ++ repeat Page 6) (start op))
     = Done (ShowError (lit "Download failed or was interrupted.")).
Proof.
  intros op. split; [reflexivity|].
  apply (relay_death_surfaces op [Page; Thread; Page] 4 6); [reflexivity|cbn; lia|cbn; lia].
Defined.

Lemma sort_latest_first_stable_witness :
  let a := {| name := lit "a.mp3"; mtime := 5 |} in
  let b := {| name := lit "b.mp3"; mtime := 9 |} in
  let c := {| name := lit "c.mp3"; mtime := 9 |} in
  head (sort_latest_first [a; b; c]) = Some b
  /\ head (List.filter (fun e' => (mtime e' =? mtime b)%Z) [a; b; c]) = Some b.
Proof.
  intros a b c. split; [reflexivity|].
  destruct (sort_latest_first_stable [a; b; c]) as (_ & _ & _ & Hhead).
  apply (Hhead b). reflexivity.
Defined.

Lemma ascii_table_agrees : forall c, c < 128 -> isalnum c = ascii_isalnum c.
Proof. reflexivity. Qed.

Lemma sanitize_filename_safe_witness :
  (forall c, c < 128 -> isalnum c = ascii_isalnum c)
  /\ sublist (sanitize_filename (lit "a/b*c?.mp3")) (lit "a/b*c?.mp3").
Proof.
  split; [exact ascii_table_agrees|].
  destruct (sanitize_filename_safe (lit "a/b*c?.mp3") ascii_table_agrees) as [Hsub _].
  exact Hsub.
Defined.

Lemma resolve_finds_existing_witness :
  let d := only [{| name := lit ".cache"; mtime := 9 |};
                 {| name := lit "My Title.mp3"; mtime := 3 |}] in
  has_magic (DOWNLOAD_DIR app_dir) = false
  /\ ascii_law
  /\ resolve app_dir d None (lit "Another") = Some (lit "/srv/app/downloads/My Title.mp3")
  /\ exists_path app_dir d (lit "/srv/app/downloads/My Title.mp3") = true.
Proof.
  intros d.
  assert (Hr : resolve app_dir d None (lit "Another")
               = Some (lit "/srv/app/downloads/My Title.mp3")) by reflexivity.
  split; [reflexivity|]. split; [exact ascii_table_agrees|]. split; [exact Hr|].
  destruct (resolve_finds_existing app_dir d None (lit "Another") eq_refl
              ascii_table_agrees) as [Hsound _].
  apply (Hsound _ Hr).
Defined.

Lemma download_clicked_checks_blank_witness :
  Forall (fun c => isspace c = true) (lit "   ")
  /\ download_clicked app_dir None (lit "   ") best_choice
     = Rejected (lit "Please paste a YouTube URL.").
Proof.
  assert (Hb : Forall (fun c => isspace c = true) (lit "   ")) by (repeat constructor).
  split; [exact Hb|].
  destruct (download_clicked_checks_blank app_dir None (lit "   ") best_choice) as [Hrej _].
  apply Hrej. exact Hb.
Defined.

End MoreSamples.
